(** * UnlimitedHandleResource: a handle table over a growing slot vector

    Shallow embedding of [cs::UnlimitedHandleResource] from
    [src/UnlimitedHandleResource.h] and proofs of its allocation, lookup,
    release and enumeration properties.

    The table is a vector of shared pointers; a null pointer marks an empty
    slot.  All member functions run under one mutex, so each call is modelled
    as one atomic state transformer. *)

From stdpp Require Import base numbers option list sorting.

Local Open Scope Z_scope.

(** ** Machine integers *)

Definition INT_MAX : Z := 2147483647.

(** [static_cast<int>(n)] for an unsigned size [n]: the value is reduced
    modulo 2^32 into the range of a 32-bit signed [int]. *)
Definition size_to_int (n : nat) : Z :=
  (Z.of_nat n + 2147483648) `mod` 4294967296 - 2147483648.

(** ** The handle collaborator

    The header lists what [THandle] has to provide: a maximum index
    [kIndexMax], a constructor from an index and a type, and
    [GetTypedIndex].  [Allocate] also writes [return 0;], which needs the
    conversion of an integer to a handle.  [THandle::Type] is an enum or an
    integer typedef; its values are kept as integers here.  [kIndexMax] is a
    maximum index, so it is not negative, and comparing it with the unsigned
    loop counter compares the two values. *)
Class Handle (THandle : Type) := {
  kIndexMax : Z;
  Handle_make : Z → Z → THandle;
  GetTypedIndex : THandle → Z → Z;
  Handle_of_int : Z → THandle
}.

(** What the table relies on for a handle type used with type value
    [typeValue]: the maximum index is an [int], and a handle made from an
    index up to the maximum and the table's type decodes to that index under
    the same type. *)
Class HandleContract {THandle : Type} `{Handle THandle} (typeValue : Z)
  : Prop := {
  kIndexMax_int : kIndexMax ≤ INT_MAX;
  typed_index_make : ∀ i : Z,
    0 ≤ i ≤ kIndexMax → GetTypedIndex (Handle_make i typeValue) typeValue = i
}.

(** A concrete handle type with the attributes the header asks for, used to
    run the table on explicit inputs: a 32-bit value holding the index in
    bits 0..15 and the type in bits 24..30.  A negative index gives the zero
    handle, and decoding against another type gives -1. *)
Module SampleHandle.

Definition make (index type : Z) : Z :=
  if index <? 0 then 0
  else Z.lor (Z.shiftl (Z.land type 127) 24) (Z.land index 65535).

Definition GetIndex (h : Z) : Z := Z.land h 65535.

Definition GetType (h : Z) : Z := Z.land (Z.shiftr h 24) 255.

Definition typed_index (h type : Z) : Z :=
  if GetType h =? type then GetIndex h else -1.

#[export] Instance sample_handle : Handle Z := {|
  kIndexMax := 65535;
  Handle_make := make;
  GetTypedIndex := typed_index;
  Handle_of_int := λ z, z
|}.

(** The type value of the sample table. *)
Definition kSource : Z := 65.

End SampleHandle.

(** ** The table *)

(** Objects created by [std::make_shared] live in a store and are named by
    their position in it.  A [shared_ptr] is either null or names an object;
    copies of a pointer name the same object.  Pointers of every pointee
    type share this representation: the parameter of [shared_ptr] records
    the type written in the C++ declaration. *)
Abbreviation loc := nat (only parsing).

Abbreviation shared_ptr T := (option loc) (only parsing).

Abbreviation nullptr := (@None loc) (only parsing).

Section UnlimitedHandleResource.

Context {THandle : Type} `{Handle THandle}.
(** [TStruct] with its constructor, [Args] standing for the forwarded
    argument pack. *)
Context {TStruct Args : Type} (construct : Args → TStruct).
Context (typeValue : Z).

(** [m_structures] together with the object store the pointers refer to.
    Reference counts are left out: an object stays in the store after the
    last pointer to it is gone. *)
Record state := State {
  m_structures : list (shared_ptr TStruct);
  objects : list TStruct
}.

(** A default-constructed table. *)
Definition empty_table (objs : list TStruct) : state :=
  {| m_structures := []; objects := objs |}.

(** [std::make_shared<TStruct>(args...)]. *)
Definition make_shared (a : Args) (objs : list TStruct)
  : shared_ptr TStruct * list TStruct :=
  (Some (length objs), objs ++ [construct a]).

Definition MakeHandle (i : nat) : THandle :=
  Handle_make (size_to_int i) typeValue.

(** [Allocate(Args&&...)].  The loop is unrolled over the slots not yet
    visited: [rest] holds the slots from position [i] on, and the empty list
    is the loop exit with [i = m_structures.size()].  The test
    [i >= THandle::kIndexMax] compares the values, as the source does for a
    [kIndexMax] that is not negative; a negative one would be converted to a
    large unsigned number there, which statements that depend on the test
    exclude by [0 ≤ kIndexMax] or by a bound on the length. *)
Fixpoint Allocate_loop (a : Args) (s : state) (i : nat)
    (rest : list (shared_ptr TStruct)) : THandle * state :=
  match rest with
  | None :: _ =>
      let '(p, objs) := make_shared a (objects s) in
      (MakeHandle i,
       {| m_structures := <[i := p]> (m_structures s); objects := objs |})
  | Some _ :: rest' => Allocate_loop a s (S i) rest'
  | [] =>
      if Z.of_nat i >=? kIndexMax then (Handle_of_int 0, s)
      else
        let '(p, objs) := make_shared a (objects s) in
        (MakeHandle i,
         {| m_structures := m_structures s ++ [p]; objects := objs |})
  end.

Definition Allocate (a : Args) (s : state) : THandle * state :=
  Allocate_loop a s 0 (m_structures s).

(** [Allocate(std::shared_ptr<THandle> structure)]: the parameter is declared
    as a pointer to [THandle].  Assigning it to a slot uses the converting
    assignment of [shared_ptr], which exists when a pointer to [THandle]
    converts to a pointer to [TStruct] and keeps the object named.  The
    definition describes the overload for such types; for other types the
    overload cannot be instantiated and has no behaviour. *)
Fixpoint Allocate_shared_loop (structure : shared_ptr THandle) (s : state)
    (i : nat) (rest : list (shared_ptr TStruct)) : THandle * state :=
  match rest with
  | None :: _ =>
      (MakeHandle i,
       {| m_structures := <[i := structure]> (m_structures s);
          objects := objects s |})
  | Some _ :: rest' => Allocate_shared_loop structure s (S i) rest'
  | [] =>
      if Z.of_nat i >=? kIndexMax then (Handle_of_int 0, s)
      else
        (MakeHandle i,
         {| m_structures := m_structures s ++ [structure];
            objects := objects s |})
  end.

Definition Allocate_shared (structure : shared_ptr THandle) (s : state)
  : THandle * state :=
  Allocate_shared_loop structure s 0 (m_structures s).

(** [Get].  The last match reads [m_structures[index]]; the index is in range
    there (lemma [Get_access_in_range]), the other branch is never taken. *)
Definition Get (handle : THandle) (s : state) : shared_ptr TStruct :=
  let index := GetTypedIndex handle typeValue in
  if index <? 0 then nullptr
  else if index >=? size_to_int (length (m_structures s)) then nullptr
  else match m_structures s !! Z.to_nat index with
       | Some p => p
       | None => nullptr
       end.

(** [Free]: [reset()] makes the slot null. *)
Definition Free (handle : THandle) (s : state) : state :=
  let index := GetTypedIndex handle typeValue in
  if index <? 0 then s
  else if index >=? size_to_int (length (m_structures s)) then s
  else {| m_structures := <[Z.to_nat index := nullptr]> (m_structures s);
          objects := objects s |}.

(** [GetAll<T>]: [push_back] converts each handle to the element type [T]. *)
Fixpoint GetAll_loop {T : Type} (conv : THandle → T) (i : nat)
    (rest : list (shared_ptr TStruct)) (handles : list T) : list T :=
  match rest with
  | [] => handles
  | Some _ :: rest' => GetAll_loop conv (S i) rest' (handles ++ [conv (MakeHandle i)])
  | None :: rest' => GetAll_loop conv (S i) rest' handles
  end.

Definition GetAll {T : Type} (conv : THandle → T) (handles : list T)
    (s : state) : list T :=
  GetAll_loop conv 0 (m_structures s) handles.

(** ** Calls and call sequences *)

(** The two overloads of [Allocate] behind one request type. *)
Inductive alloc_request :=
| Construct (a : Args)
| Share (structure : shared_ptr THandle).

Definition allocate (r : alloc_request) (s : state) : THandle * state :=
  match r with
  | Construct a => Allocate a s
  | Share structure => Allocate_shared structure s
  end.

Inductive call :=
| CallAllocate (r : alloc_request)
| CallGet (handle : THandle)
| CallFree (handle : THandle)
| CallGetAll (handles : list THandle).

Inductive reply :=
| ReplyHandle (h : THandle)
| ReplyPtr (p : shared_ptr TStruct)
| ReplyVoid
| ReplyHandles (hs : list THandle).

Definition exec (c : call) (s : state) : reply * state :=
  match c with
  | CallAllocate r => let '(h, s') := allocate r s in (ReplyHandle h, s')
  | CallGet handle => (ReplyPtr (Get handle s), s)
  | CallFree handle => (ReplyVoid, Free handle s)
  | CallGetAll handles => (ReplyHandles (GetAll id handles s), s)
  end.

Fixpoint run (cs : list call) (s : state) : list reply * state :=
  match cs with
  | [] => ([], s)
  | c :: cs' =>
      let '(r, s1) := exec c s in
      let '(rs, s2) := run cs' s1 in
      (r :: rs, s2)
  end.

(** ** Vocabulary of the statements *)

(** Slot [i] is empty and no slot below it is. *)
Definition lowest_empty (m : list (shared_ptr TStruct)) (i : nat) : Prop :=
  m !! i = Some None ∧ ∀ j, (j < i)%nat → m !! j ≠ Some None.

(** Every slot holds a resource. *)
Definition all_live (m : list (shared_ptr TStruct)) : Prop :=
  Forall is_Some m.

(** An allocation can succeed: a slot is empty or the vector may grow. *)
Definition has_room (s : state) : Prop :=
  ¬ all_live (m_structures s) ∨ Z.of_nat (length (m_structures s)) < kIndexMax.

(** The vector has not outgrown the index space. *)
Definition table_ok (s : state) : Prop :=
  Z.of_nat (length (m_structures s)) ≤ kIndexMax.

(** What an allocation request puts into its slot when run in [s], and the
    object store it leaves. *)
Definition installed (r : alloc_request) (s : state) : shared_ptr TStruct :=
  match r with
  | Construct a => (make_shared a (objects s)).1
  | Share structure => structure
  end.

Definition objects_after (r : alloc_request) (s : state) : list TStruct :=
  match r with
  | Construct a => (make_shared a (objects s)).2
  | Share _ => objects s
  end.

(** The request installs an actual resource. *)
Definition installs_resource (r : alloc_request) : Prop :=
  match r with
  | Construct _ => True
  | Share structure => structure ≠ None
  end.

(** The indices of the occupied slots, lowest first. *)
Definition occupied_slots (m : list (shared_ptr TStruct)) : list nat :=
  filter (λ i, is_Some (mjoin (m !! i))) (seq 0 (length m)).

(** A run of allocation requests: the handles returned, each with the
    pointer its request installed, and the final state. *)
Fixpoint allocate_all (rs : list alloc_request) (s : state)
  : list (THandle * shared_ptr TStruct) * state :=
  match rs with
  | [] => ([], s)
  | r :: rs' =>
      let '(h, s1) := allocate r s in
      let '(log, s2) := allocate_all rs' s1 in
      ((h, installed r s) :: log, s2)
  end.

(** Every request of the run finds room when its turn comes. *)
Fixpoint all_succeed (rs : list alloc_request) (s : state) : Prop :=
  match rs with
  | [] => True
  | r :: rs' => has_room s ∧ all_succeed rs' (allocate r s).2
  end.

(** An allocation run in [s] succeeds and takes slot [i]: the lowest empty
    slot, or a new one at the end when no slot is empty and the vector may
    grow. *)
Definition picks (s : state) (i : nat) : Prop :=
  lowest_empty (m_structures s) i
  ∨ (all_live (m_structures s) ∧ i = length (m_structures s)
     ∧ Z.of_nat i < kIndexMax).

(** Call [c], run in [s], writes slot [i]: it frees a handle of that index
    or it is an allocation that takes the slot. *)
Definition touches (i : nat) (c : call) (s : state) : Prop :=
  match c with
  | CallAllocate _ => picks s i
  | CallFree handle => GetTypedIndex handle typeValue = Z.of_nat i
  | CallGet _ | CallGetAll _ => False
  end.

(** No call of the sequence, run from [s], writes slot [i]. *)
Fixpoint untouched (i : nat) (cs : list call) (s : state) : Prop :=
  match cs with
  | [] => True
  | c :: cs' => ¬ touches i c s ∧ untouched i cs' (exec c s).2
  end.

(** No allocation of the sequence, run from [s], takes slot [i]. *)
Fixpoint not_reused (i : nat) (cs : list call) (s : state) : Prop :=
  match cs with
  | [] => True
  | c :: cs' =>
      match c with CallAllocate _ => ¬ picks s i | _ => True end
      ∧ not_reused i cs' (exec c s).2
  end.

(** No call of the sequence is [Free] of the handle [h] itself. *)
Definition no_Free_of (h : THandle) (cs : list call) : Prop :=
  Forall (λ c, c ≠ CallFree h) cs.

(** ** Integer conversions *)

Lemma size_to_int_small (n : nat) :
  Z.of_nat n ≤ INT_MAX → size_to_int n = Z.of_nat n.
Proof.
  unfold size_to_int, INT_MAX. intros Hn.
  rewrite Z.mod_small; lia.
Qed.

Lemma size_to_int_le (n : nat) : size_to_int n ≤ Z.of_nat n.
Proof.
  unfold size_to_int.
  pose proof (Z.mod_le (Z.of_nat n + 2147483648) 4294967296). lia.
Qed.

(** ** Empty and live slots *)

Lemma lowest_empty_lt m i : lowest_empty m i → (i < length m)%nat.
Proof. intros [Hi _]. by eapply lookup_lt_Some. Qed.

Lemma lowest_empty_unique m i j :
  lowest_empty m i → lowest_empty m j → i = j.
Proof.
  intros [Hi Hlow_i] [Hj Hlow_j].
  destruct (Nat.lt_trichotomy i j) as [Hlt | [-> | Hlt]]; [|done|].
  - by destruct (Hlow_j i Hlt).
  - by destruct (Hlow_i j Hlt).
Qed.

Lemma all_live_lookup m i : all_live m → m !! i ≠ Some None.
Proof.
  intros Hall Hi. unfold all_live in Hall. rewrite Forall_lookup in Hall.
  destruct (Hall i None Hi) as [x Hx]. discriminate.
Qed.

Lemma all_live_not_lowest_empty m i : all_live m → ¬ lowest_empty m i.
Proof. intros Hall [Hi _]. by eapply all_live_lookup. Qed.

(** A vector is full of live slots or has a lowest empty one. *)
Lemma all_live_or_lowest_empty m : all_live m ∨ ∃ i, lowest_empty m i.
Proof.
  induction m as [| p m IH].
  - left. constructor.
  - destruct p as [x |].
    + destruct IH as [Hall | [i [Hi Hlow]]].
      * left. constructor; eauto.
      * right. exists (S i). split; [done |].
        intros [| j] Hj; [done |]. apply Hlow. lia.
    + right. exists 0%nat. split; [done |]. intros j Hj. lia.
Qed.

Lemma has_room_picks s : has_room s ↔ ∃ i, picks s i.
Proof.
  unfold has_room, picks. split.
  - destruct (all_live_or_lowest_empty (m_structures s)) as [Hall | [i Hi]].
    + intros [Hn | Hlen]; [done |]. exists (length (m_structures s)). eauto.
    + intros _. eauto.
  - intros [i [Hi | (Hall & -> & Hlen)]]; [| by right].
    left. intros Hall. by eapply all_live_not_lowest_empty.
Qed.

Lemma picks_unique s i j : picks s i → picks s j → i = j.
Proof.
  intros [Hi | (Hall & -> & _)] [Hj | (Hall' & -> & _)]; try done.
  - by eapply lowest_empty_unique.
  - by destruct (all_live_not_lowest_empty _ _ Hall' Hi).
  - by destruct (all_live_not_lowest_empty _ _ Hall Hj).
Qed.

(** ** The allocation loops

    Both loops are followed from a position [length pre] at which the slots
    already visited, [pre], are all live. *)

Lemma lowest_empty_after_live pre rest i :
  all_live pre → lowest_empty (pre ++ None :: rest) i → i = length pre.
Proof.
  intros Hpre [Hi Hlow].
  destruct (Nat.lt_trichotomy i (length pre)) as [Hlt | [-> | Hlt]]; [|done|].
  - rewrite lookup_app_l in Hi by done. by destruct (all_live_lookup pre i).
  - destruct (Hlow (length pre) Hlt). by rewrite list_lookup_middle.
Qed.

Lemma Allocate_loop_lowest_empty a s pre rest i :
  m_structures s = pre ++ rest → all_live pre →
  lowest_empty (m_structures s) i →
  Allocate_loop a s (length pre) rest =
    (MakeHandle i,
     {| m_structures := <[i := Some (length (objects s))]> (m_structures s);
        objects := objects s ++ [construct a] |}).
Proof.
  revert pre. induction rest as [| [x |] rest IH]; intros pre Hm Hpre Hi.
  - rewrite app_nil_r in Hm. rewrite Hm in Hi.
    by destruct (all_live_not_lowest_empty pre i).
  - simpl. replace (S (length pre)) with (length (pre ++ [Some x]))
      by (rewrite length_app; simpl; lia).
    apply IH; [by rewrite <- app_assoc | | done].
    apply Forall_app. split; [done |]. repeat constructor; eauto.
  - simpl. rewrite Hm in Hi.
    by rewrite (lowest_empty_after_live pre rest i Hpre Hi).
Qed.

Lemma Allocate_loop_all_live a s pre rest :
  m_structures s = pre ++ rest → all_live (m_structures s) →
  Allocate_loop a s (length pre) rest =
    if Z.of_nat (length (m_structures s)) >=? kIndexMax
    then (Handle_of_int 0, s)
    else (MakeHandle (length (m_structures s)),
          {| m_structures := m_structures s ++ [Some (length (objects s))];
             objects := objects s ++ [construct a] |}).
Proof.
  revert pre. induction rest as [| [x |] rest IH]; intros pre Hm Hall.
  - rewrite app_nil_r in Hm. simpl. rewrite Hm. by case_match.
  - simpl. replace (S (length pre)) with (length (pre ++ [Some x]))
      by (rewrite length_app; simpl; lia).
    apply IH; [by rewrite <- app_assoc | done].
  - destruct (all_live_lookup _ (length pre) Hall).
    by rewrite Hm, list_lookup_middle.
Qed.

Lemma Allocate_shared_loop_lowest_empty structure s pre rest i :
  m_structures s = pre ++ rest → all_live pre →
  lowest_empty (m_structures s) i →
  Allocate_shared_loop structure s (length pre) rest =
    (MakeHandle i,
     {| m_structures := <[i := structure]> (m_structures s);
        objects := objects s |}).
Proof.
  revert pre. induction rest as [| [x |] rest IH]; intros pre Hm Hpre Hi.
  - rewrite app_nil_r in Hm. rewrite Hm in Hi.
    by destruct (all_live_not_lowest_empty pre i).
  - simpl. replace (S (length pre)) with (length (pre ++ [Some x]))
      by (rewrite length_app; simpl; lia).
    apply IH; [by rewrite <- app_assoc | | done].
    apply Forall_app. split; [done |]. repeat constructor; eauto.
  - simpl. rewrite Hm in Hi.
    by rewrite (lowest_empty_after_live pre rest i Hpre Hi).
Qed.

Lemma Allocate_shared_loop_all_live structure s pre rest :
  m_structures s = pre ++ rest → all_live (m_structures s) →
  Allocate_shared_loop structure s (length pre) rest =
    if Z.of_nat (length (m_structures s)) >=? kIndexMax
    then (Handle_of_int 0, s)
    else (MakeHandle (length (m_structures s)),
          {| m_structures := m_structures s ++ [structure];
             objects := objects s |}).
Proof.
  revert pre. induction rest as [| [x |] rest IH]; intros pre Hm Hall.
  - rewrite app_nil_r in Hm. simpl. rewrite Hm. by case_match.
  - simpl. replace (S (length pre)) with (length (pre ++ [Some x]))
      by (rewrite length_app; simpl; lia).
    apply IH; [by rewrite <- app_assoc | done].
  - destruct (all_live_lookup _ (length pre) Hall).
    by rewrite Hm, list_lookup_middle.
Qed.

(** The three outcomes of an allocation, for either overload. *)
Lemma allocate_lowest_empty r s i :
  lowest_empty (m_structures s) i →
  allocate r s =
    (MakeHandle i,
     {| m_structures := <[i := installed r s]> (m_structures s);
        objects := objects_after r s |}).
Proof.
  intros Hi. destruct r as [a | structure]; simpl.
  - apply (Allocate_loop_lowest_empty a s [] (m_structures s) i);
      [done | constructor | done].
  - apply (Allocate_shared_loop_lowest_empty structure s [] (m_structures s) i);
      [done | constructor | done].
Qed.

Lemma allocate_all_live r s :
  all_live (m_structures s) →
  allocate r s =
    if Z.of_nat (length (m_structures s)) >=? kIndexMax
    then (Handle_of_int 0, s)
    else (MakeHandle (length (m_structures s)),
          {| m_structures := m_structures s ++ [installed r s];
             objects := objects_after r s |}).
Proof.
  intros Hall. destruct r as [a | structure]; simpl.
  - by apply (Allocate_loop_all_live a s [] (m_structures s)).
  - by apply (Allocate_shared_loop_all_live structure s [] (m_structures s)).
Qed.

Lemma allocate_append r s :
  all_live (m_structures s) →
  Z.of_nat (length (m_structures s)) < kIndexMax →
  allocate r s =
    (MakeHandle (length (m_structures s)),
     {| m_structures := m_structures s ++ [installed r s];
        objects := objects_after r s |}).
Proof.
  intros Hall Hlen. rewrite allocate_all_live by done.
  destruct (Z.geb_spec (Z.of_nat (length (m_structures s))) kIndexMax); [lia | done].
Qed.

Lemma allocate_exhausted r s :
  all_live (m_structures s) →
  kIndexMax ≤ Z.of_nat (length (m_structures s)) →
  allocate r s = (Handle_of_int 0, s).
Proof.
  intros Hall Hlen. rewrite allocate_all_live by done.
  destruct (Z.geb_spec (Z.of_nat (length (m_structures s))) kIndexMax); [done | lia].
Qed.

(** ** What one allocation changes *)

Lemma allocate_picks r s i :
  picks s i →
  (allocate r s).1 = MakeHandle i
  ∧ m_structures (allocate r s).2 !! i = Some (installed r s)
  ∧ objects (allocate r s).2 = objects_after r s.
Proof.
  intros [Hi | (Hall & -> & Hlen)].
  - rewrite (allocate_lowest_empty r s i Hi). simpl.
    split_and!; [done | | done].
    apply list_lookup_insert_eq. by eapply lowest_empty_lt.
  - rewrite (allocate_append r s Hall Hlen). simpl.
    split_and!; [done | | done].
    by rewrite list_lookup_middle.
Qed.

Lemma allocate_no_room r s : ¬ has_room s → allocate r s = (Handle_of_int 0, s).
Proof.
  unfold has_room. intros Hno.
  destruct (all_live_or_lowest_empty (m_structures s)) as [Hall | [i Hi]].
  - apply allocate_exhausted; [done | lia].
  - destruct Hno. left. intros Hall. by eapply all_live_not_lowest_empty.
Qed.

Lemma allocate_other_slot r s j :
  ¬ picks s j → m_structures (allocate r s).2 !! j = m_structures s !! j.
Proof.
  intros Hj.
  destruct (all_live_or_lowest_empty (m_structures s)) as [Hall | [i Hi]].
  - rewrite (allocate_all_live r s Hall).
    destruct (Z.geb_spec (Z.of_nat (length (m_structures s))) kIndexMax)
      as [Hge | Hlt]; [done |]. simpl.
    assert (j ≠ length (m_structures s)) as Hne.
    { intros ->. apply Hj. right. done. }
    destruct (Nat.lt_trichotomy j (length (m_structures s))) as [? | [? | ?]];
      [by rewrite lookup_app_l | done |].
    rewrite !lookup_ge_None_2; [done | lia |].
    rewrite length_app. simpl. lia.
  - rewrite (allocate_lowest_empty r s i Hi). simpl.
    apply list_lookup_insert_ne. intros ->. apply Hj. by left.
Qed.

Lemma allocate_length r s :
  (length (m_structures s) ≤ length (m_structures (allocate r s).2)
   ≤ S (length (m_structures s)))%nat.
Proof.
  destruct (all_live_or_lowest_empty (m_structures s)) as [Hall | [i Hi]].
  - rewrite (allocate_all_live r s Hall). case_match; simpl; [lia |].
    rewrite length_app. simpl. lia.
  - rewrite (allocate_lowest_empty r s i Hi). simpl.
    rewrite length_insert. lia.
Qed.

Lemma allocate_grows_only_when_live r s :
  length (m_structures (allocate r s).2) ≠ length (m_structures s) →
  all_live (m_structures s).
Proof.
  destruct (all_live_or_lowest_empty (m_structures s)) as [Hall | [i Hi]];
    [done |].
  rewrite (allocate_lowest_empty r s i Hi). simpl.
  rewrite length_insert. done.
Qed.

Lemma allocate_table_ok r s : table_ok s → table_ok (allocate r s).2.
Proof.
  unfold table_ok. intros Hok.
  destruct (all_live_or_lowest_empty (m_structures s)) as [Hall | [i Hi]].
  - rewrite (allocate_all_live r s Hall).
    destruct (Z.geb_spec (Z.of_nat (length (m_structures s))) kIndexMax);
      simpl; [done |].
    rewrite length_app. simpl. lia.
  - rewrite (allocate_lowest_empty r s i Hi). simpl.
    by rewrite length_insert.
Qed.

Lemma allocate_objects_prefix r s :
  objects s `prefix_of` objects (allocate r s).2.
Proof.
  assert (objects s `prefix_of` objects_after r s) as Hpre.
  { destruct r; simpl; [by apply prefix_app_r | done]. }
  destruct (all_live_or_lowest_empty (m_structures s)) as [Hall | [i Hi]].
  - rewrite (allocate_all_live r s Hall). by case_match.
  - by rewrite (allocate_lowest_empty r s i Hi).
Qed.

(** ** Lookup and release *)

(** [Get] never reads outside the vector. *)
Lemma Get_access_in_range (handle : THandle) s :
  let index := GetTypedIndex handle typeValue in
  0 ≤ index → index < size_to_int (length (m_structures s)) →
  is_Some (m_structures s !! Z.to_nat index).
Proof.
  intros index H0 Hlt. apply lookup_lt_is_Some.
  pose proof (size_to_int_le (length (m_structures s))). lia.
Qed.

Lemma Get_out_of_range handle s :
  GetTypedIndex handle typeValue < 0
  ∨ Z.of_nat (length (m_structures s)) ≤ GetTypedIndex handle typeValue →
  Get handle s = nullptr.
Proof.
  intros Hidx. unfold Get.
  destruct (Z.ltb_spec (GetTypedIndex handle typeValue) 0); [done |].
  destruct (Z.geb_spec (GetTypedIndex handle typeValue)
              (size_to_int (length (m_structures s)))); [done |].
  pose proof (size_to_int_le (length (m_structures s))). lia.
Qed.

Lemma Free_out_of_range handle s :
  GetTypedIndex handle typeValue < 0
  ∨ Z.of_nat (length (m_structures s)) ≤ GetTypedIndex handle typeValue →
  Free handle s = s.
Proof.
  intros Hidx. unfold Free.
  destruct (Z.ltb_spec (GetTypedIndex handle typeValue) 0); [done |].
  destruct (Z.geb_spec (GetTypedIndex handle typeValue)
              (size_to_int (length (m_structures s)))); [done |].
  pose proof (size_to_int_le (length (m_structures s))). lia.
Qed.

Lemma Free_length handle s :
  length (m_structures (Free handle s)) = length (m_structures s).
Proof. unfold Free. repeat case_match; simpl; by rewrite ?length_insert. Qed.

Lemma Free_objects handle s : objects (Free handle s) = objects s.
Proof. unfold Free. by repeat case_match. Qed.

Lemma Free_table_ok handle s : table_ok s → table_ok (Free handle s).
Proof. unfold table_ok. by rewrite Free_length. Qed.

Lemma Free_other_slot handle s j :
  GetTypedIndex handle typeValue ≠ Z.of_nat j →
  m_structures (Free handle s) !! j = m_structures s !! j.
Proof.
  intros Hne. unfold Free.
  destruct (Z.ltb_spec (GetTypedIndex handle typeValue) 0); [done |].
  case_match; [done |]. simpl.
  apply list_lookup_insert_ne. lia.
Qed.

(** A slot that [Free] leaves non-empty was non-empty before. *)
Lemma Free_slot handle s j :
  m_structures (Free handle s) !! j = m_structures s !! j
  ∨ m_structures (Free handle s) !! j = Some None.
Proof.
  unfold Free. repeat case_match; simpl; eauto.
  destruct (decide (Z.to_nat (GetTypedIndex handle typeValue) = j)) as [<- | Hne].
  - destruct (decide (Z.to_nat (GetTypedIndex handle typeValue)
                      < length (m_structures s))%nat).
    + right. by apply list_lookup_insert_eq.
    + left. rewrite list_insert_ge; [done | lia].
  - left. by apply list_lookup_insert_ne.
Qed.

(** ** Call sequences *)

Lemma run_cons_state c cs s : (run (c :: cs) s).2 = (run cs (exec c s).2).2.
Proof. simpl. destruct (exec c s) as [r s1]. simpl. by destruct (run cs s1). Qed.

Lemma exec_allocate_state r s : (exec (CallAllocate r) s).2 = (allocate r s).2.
Proof. simpl. by destruct (allocate r s). Qed.

Lemma exec_table_ok c s : table_ok s → table_ok (exec c s).2.
Proof.
  destruct c as [r | h | h | hs]; intros Hok; try done.
  - rewrite exec_allocate_state. by apply allocate_table_ok.
  - by apply Free_table_ok.
Qed.

Lemma run_table_ok cs s : table_ok s → table_ok (run cs s).2.
Proof.
  revert s. induction cs as [| c cs IH]; intros s Hok; [done |].
  rewrite run_cons_state. by apply IH, exec_table_ok.
Qed.

Lemma exec_length c s :
  (length (m_structures s) ≤ length (m_structures (exec c s).2))%nat.
Proof.
  destruct c as [r | h | h | hs]; try done.
  - rewrite exec_allocate_state. apply allocate_length.
  - simpl. by rewrite Free_length.
Qed.

(** Every state reached from a new table satisfies [table_ok]. *)
Lemma run_empty_table_ok cs objs :
  0 ≤ kIndexMax → table_ok (run cs (empty_table objs)).2.
Proof. intros Hmax. by apply run_table_ok. Qed.

Lemma run_length cs s :
  (length (m_structures s) ≤ length (m_structures (run cs s).2))%nat.
Proof.
  revert s. induction cs as [| c cs IH]; intros s; [done |].
  rewrite run_cons_state. etrans; [apply (exec_length c) | apply IH].
Qed.

Lemma exec_objects_prefix c s : objects s `prefix_of` objects (exec c s).2.
Proof.
  destruct c as [r | h | h | hs]; try done.
  - rewrite exec_allocate_state. apply allocate_objects_prefix.
  - simpl. by rewrite Free_objects.
Qed.

Lemma run_objects_prefix cs s : objects s `prefix_of` objects (run cs s).2.
Proof.
  revert s. induction cs as [| c cs IH]; intros s; [done |].
  rewrite run_cons_state. etrans; [apply (exec_objects_prefix c) | apply IH].
Qed.

Lemma exec_untouched i c s :
  ¬ touches i c s → m_structures (exec c s).2 !! i = m_structures s !! i.
Proof.
  destruct c as [r | h | h | hs]; intros Hno; try done.
  - rewrite exec_allocate_state. by apply allocate_other_slot.
  - by apply Free_other_slot.
Qed.

Lemma run_untouched i cs s :
  untouched i cs s → m_structures (run cs s).2 !! i = m_structures s !! i.
Proof.
  revert s. induction cs as [| c cs IH]; intros s; [done |].
  intros [Hc Hcs]. rewrite run_cons_state, IH by done.
  by apply exec_untouched.
Qed.

(** A slot that holds no resource stays that way until an allocation takes
    it. *)
Lemma exec_not_reused i c s :
  match c with CallAllocate _ => ¬ picks s i | _ => True end →
  default None (m_structures s !! i) = None →
  default None (m_structures (exec c s).2 !! i) = None.
Proof.
  destruct c as [r | h | h | hs]; intros Hno Hempty; try done.
  - by rewrite exec_allocate_state, allocate_other_slot.
  - change (exec (CallFree h) s).2 with (Free h s).
    destruct (Free_slot h s i) as [-> | ->]; done.
Qed.

Lemma run_not_reused i cs s :
  not_reused i cs s →
  default None (m_structures s !! i) = None →
  default None (m_structures (run cs s).2 !! i) = None.
Proof.
  revert s. induction cs as [| c cs IH]; intros s; [done |].
  intros [Hc Hcs] Hempty. rewrite run_cons_state.
  apply IH; [done |]. by apply exec_not_reused.
Qed.

Lemma Free_cases handle s :
  Free handle s = s
  ∨ ∃ i, (i < length (m_structures s))%nat
      ∧ GetTypedIndex handle typeValue = Z.of_nat i
      ∧ Free handle s =
          {| m_structures := <[i := None]> (m_structures s);
             objects := objects s |}.
Proof.
  unfold Free.
  destruct (Z.ltb_spec (GetTypedIndex handle typeValue) 0); [by left |].
  destruct (Z.geb_spec (GetTypedIndex handle typeValue)
              (size_to_int (length (m_structures s)))); [by left |].
  right. exists (Z.to_nat (GetTypedIndex handle typeValue)).
  pose proof (size_to_int_le (length (m_structures s))).
  split_and!; [lia | lia | done].
Qed.

(** ** Enumeration *)

Lemma StronglySorted_lt_seq j n : StronglySorted lt (seq j n).
Proof.
  revert j. induction n as [| n IH]; intros j; simpl; constructor; [done |].
  apply Forall_forall. intros k Hk%elem_of_seq. lia.
Qed.

Lemma StronglySorted_lt_filter (P : nat → Prop) `{!∀ i, Decision (P i)} l :
  StronglySorted lt l → StronglySorted lt (filter P l).
Proof.
  induction 1 as [| i l Hl IH Hi]; [constructor |].
  rewrite filter_cons. case_decide; [| done].
  constructor; [done |].
  apply Forall_forall. intros k [_ Hk]%list_elem_of_filter.
  rewrite Forall_forall in Hi. by apply Hi.
Qed.

Lemma occupied_slots_sorted m : StronglySorted lt (occupied_slots m).
Proof. apply StronglySorted_lt_filter, StronglySorted_lt_seq. Qed.

Lemma elem_of_occupied_slots m i :
  i ∈ occupied_slots m ↔ ∃ x, m !! i = Some (Some x).
Proof.
  unfold occupied_slots. rewrite list_elem_of_filter, elem_of_seq. split.
  - intros [[x Hx] _]. exists x.
    destruct (m !! i) as [[y |] |]; simpl in Hx; by simplify_eq.
  - intros [x Hx]. split; [rewrite Hx; by eexists |].
    apply lookup_lt_Some in Hx. lia.
Qed.

Lemma GetAll_loop_spec {T : Type} (conv : THandle → T) pre rest handles :
  GetAll_loop conv (length pre) rest handles =
    handles ++ ((λ i, conv (MakeHandle i)) <$>
      filter (λ i, is_Some (mjoin ((pre ++ rest) !! i)))
        (seq (length pre) (length rest))).
Proof.
  revert pre handles. induction rest as [| p rest IH]; intros pre handles.
  { simpl. by rewrite app_nil_r. }
  assert (length (pre ++ [p]) = S (length pre)) as Hlen
    by (rewrite length_app; simpl; lia).
  assert (pre ++ p :: rest = (pre ++ [p]) ++ rest) as Happ
    by (by rewrite <- app_assoc).
  cbn [length seq]. rewrite filter_cons, list_lookup_middle by done.
  destruct p as [x |]; cbn [GetAll_loop]; rewrite <- Hlen, IH, <- Happ.
  - rewrite decide_True by (by eexists). by rewrite fmap_cons, <- app_assoc.
  - rewrite decide_False; [done |]. by intros [? ?].
Qed.

Lemma GetAll_spec {T : Type} (conv : THandle → T) handles s :
  GetAll conv handles s =
    handles ++ ((λ i, conv (MakeHandle i)) <$> occupied_slots (m_structures s)).
Proof. apply (GetAll_loop_spec conv [] (m_structures s) handles). Qed.

(** ** Properties that hold for every handle type *)

(** C1: when every slot is live and the vector has [kIndexMax] slots, both
    overloads of [Allocate] return the handle made from 0 and leave the
    state, vector and object store, as it was. *)
Theorem Allocate_at_capacity (a : Args) (structure : shared_ptr THandle) s :
  all_live (m_structures s) →
  Z.of_nat (length (m_structures s)) = kIndexMax →
  Allocate a s = (Handle_of_int 0, s)
  ∧ Allocate_shared structure s = (Handle_of_int 0, s).
Proof.
  intros Hall Hlen. split.
  - apply (allocate_exhausted (Construct a)); [done | lia].
  - apply (allocate_exhausted (Share structure)); [done | lia].
Qed.

(** C5: for a handle whose typed index is negative, or at or beyond the
    length of the vector, [Get] returns the null pointer and [Free] returns
    the state it was given; the replies are the ordinary ones of the two
    calls and the state is the same after either. *)
Theorem invalid_handle_not_found (handle : THandle) s :
  GetTypedIndex handle typeValue < 0
  ∨ Z.of_nat (length (m_structures s)) ≤ GetTypedIndex handle typeValue →
  Get handle s = None
  ∧ Free handle s = s
  ∧ exec (CallGet handle) s = (ReplyPtr None, s)
  ∧ exec (CallFree handle) s = (ReplyVoid, s).
Proof.
  intros Hidx. simpl.
  rewrite (Get_out_of_range handle s Hidx), (Free_out_of_range handle s Hidx).
  done.
Qed.

(** C6: the length of the vector never goes down.  An allocation adds at
    most one slot; [Get] and [GetAll] return the state they were given;
    [Free] keeps the length, and it either changes nothing or makes one
    slot inside the vector null; over any sequence of calls the final
    length is at least the initial one. *)
Theorem slot_array_never_shrinks :
  (∀ r s, (length (m_structures s) ≤ length (m_structures (allocate r s).2)
           ≤ S (length (m_structures s)))%nat)
  ∧ (∀ handle s, (exec (CallGet handle) s).2 = s)
  ∧ (∀ handles s, (exec (CallGetAll handles) s).2 = s)
  ∧ (∀ handle s,
       length (m_structures (Free handle s)) = length (m_structures s)
       ∧ (Free handle s = s
          ∨ ∃ i, (i < length (m_structures s))%nat
              ∧ m_structures (Free handle s) = <[i := None]> (m_structures s)
              ∧ m_structures (Free handle s) !! i = Some None))
  ∧ (∀ c s, (length (m_structures s) ≤ length (m_structures (exec c s).2))%nat)
  ∧ (∀ cs s, (length (m_structures s) ≤ length (m_structures (run cs s).2))%nat).
Proof.
  split_and!; try done.
  - apply allocate_length.
  - intros handle s. split; [apply Free_length |].
    destruct (Free_cases handle s) as [? | (i & Hi & _ & ->)]; [by left |].
    right. exists i. simpl. split_and!; [done | done |].
    by apply list_lookup_insert_eq.
  - apply exec_length.
  - apply run_length.
Qed.

(** Where the pointer overload is well-formed, that is where a pointer to
    [THandle] converts to a pointer to [TStruct], and [kIndexMax] is not
    negative, it picks its slot as the constructing overload does.  Both
    return the same handle.  When an allocation has room at slot [i], the
    pointer overload puts the pointer it was given there and constructs
    nothing, where the other overload puts a pointer to a newly constructed
    object; all other slots are left alone by both, and both vectors have
    the same length.  Without room both return the handle made from 0 and
    the state unchanged. *)
Lemma Allocate_shared_same_policy (a : Args) (structure : shared_ptr THandle) s :
  0 ≤ kIndexMax →
  (Allocate_shared structure s).1 = (Allocate a s).1
  ∧ length (m_structures (Allocate_shared structure s).2)
    = length (m_structures (Allocate a s).2)
  ∧ (∀ i, picks s i →
       (Allocate_shared structure s).1 = MakeHandle i
       ∧ m_structures (Allocate_shared structure s).2 !! i = Some structure
       ∧ objects (Allocate_shared structure s).2 = objects s
       ∧ m_structures (Allocate a s).2 !! i = Some (Some (length (objects s)))
       ∧ objects (Allocate a s).2 = objects s ++ [construct a])
  ∧ (∀ j, ¬ picks s j →
       m_structures (Allocate_shared structure s).2 !! j = m_structures s !! j
       ∧ m_structures (Allocate a s).2 !! j = m_structures s !! j)
  ∧ (¬ has_room s →
       Allocate_shared structure s = (Handle_of_int 0, s)
       ∧ Allocate a s = (Handle_of_int 0, s)).
Proof.
  intros _.
  change (Allocate_shared structure s) with (allocate (Share structure) s).
  change (Allocate a s) with (allocate (Construct a) s).
  split_and!.
  - destruct (all_live_or_lowest_empty (m_structures s)) as [Hall | [i Hi]].
    + rewrite !allocate_all_live by done. by case_match.
    + by rewrite !(allocate_lowest_empty _ s i Hi).
  - destruct (all_live_or_lowest_empty (m_structures s)) as [Hall | [i Hi]].
    + rewrite !allocate_all_live by done. case_match; [done |].
      simpl. by rewrite !length_app.
    + rewrite !(allocate_lowest_empty _ s i Hi). simpl.
      by rewrite !length_insert.
  - intros i Hi.
    destruct (allocate_picks (Share structure) s i Hi) as (-> & -> & ->).
    destruct (allocate_picks (Construct a) s i Hi) as (_ & -> & ->).
    done.
  - intros j Hj. by rewrite !allocate_other_slot.
  - intros Hno. by rewrite !allocate_no_room.
Qed.

(** C9: [GetAll] keeps what the output vector held and adds the table's
    handles behind it: the result is the old content followed by what
    [GetAll] gives on an empty vector, so the old content is its prefix. *)
Theorem GetAll_appends {T : Type} (conv : THandle → T) (handles : list T) s :
  GetAll conv handles s = handles ++ GetAll conv [] s
  ∧ take (length handles) (GetAll conv handles s) = handles
  ∧ drop (length handles) (GetAll conv handles s) =
      (λ i, conv (MakeHandle i)) <$> occupied_slots (m_structures s).
Proof.
  rewrite (GetAll_spec conv handles), (GetAll_spec conv []). simpl.
  split_and!; [done | by rewrite take_app_length | by rewrite drop_app_length].
Qed.

(** ** Further properties of lookup and release *)

(** The two guards of [Get] and [Free] let the call through to the indexed
    access [m_structures[index]]. *)
Definition in_range (handle : THandle) (s : state) : Prop :=
  0 ≤ GetTypedIndex handle typeValue
      < size_to_int (length (m_structures s)).

Lemma Get_in_range handle s :
  in_range handle s →
  Get handle s
  = default None (m_structures s !! Z.to_nat (GetTypedIndex handle typeValue)).
Proof.
  intros [H0 Hlt]. unfold Get.
  destruct (Z.ltb_spec (GetTypedIndex handle typeValue) 0); [lia |].
  destruct (Z.geb_spec (GetTypedIndex handle typeValue)
              (size_to_int (length (m_structures s)))); [lia |].
  by destruct (m_structures s !! _).
Qed.

Lemma Get_not_in_range handle s : ¬ in_range handle s → Get handle s = None.
Proof.
  intros Hno. unfold Get.
  destruct (Z.ltb_spec (GetTypedIndex handle typeValue) 0); [done |].
  destruct (Z.geb_spec (GetTypedIndex handle typeValue)
              (size_to_int (length (m_structures s)))); [done |].
  destruct Hno. split; lia.
Qed.

Lemma Free_in_range handle s :
  in_range handle s →
  Free handle s
  = {| m_structures :=
         <[Z.to_nat (GetTypedIndex handle typeValue) := None]> (m_structures s);
       objects := objects s |}.
Proof.
  intros [H0 Hlt]. unfold Free.
  destruct (Z.ltb_spec (GetTypedIndex handle typeValue) 0); [lia |].
  destruct (Z.geb_spec (GetTypedIndex handle typeValue)
              (size_to_int (length (m_structures s)))); [lia | done].
Qed.

Lemma Free_not_in_range handle s : ¬ in_range handle s → Free handle s = s.
Proof.
  intros Hno. unfold Free.
  destruct (Z.ltb_spec (GetTypedIndex handle typeValue) 0); [done |].
  destruct (Z.geb_spec (GetTypedIndex handle typeValue)
              (size_to_int (length (m_structures s)))); [done |].
  destruct Hno. split; lia.
Qed.

Lemma in_range_Free handle handle' s :
  in_range handle (Free handle' s) ↔ in_range handle s.
Proof. unfold in_range. by rewrite Free_length. Qed.

Lemma in_range_lt handle s :
  in_range handle s →
  (Z.to_nat (GetTypedIndex handle typeValue) < length (m_structures s))%nat.
Proof.
  intros [H0 Hlt]. pose proof (size_to_int_le (length (m_structures s))). lia.
Qed.

Lemma Get_Some_slot handle s x :
  Get handle s = Some x →
  in_range handle s
  ∧ m_structures s !! Z.to_nat (GetTypedIndex handle typeValue)
    = Some (Some x).
Proof.
  intros Hget. destruct (decide (in_range handle s)) as [Hin | Hout].
  - split; [done |]. rewrite (Get_in_range handle s Hin) in Hget.
    destruct (lookup_lt_is_Some_2 (m_structures s)
                (Z.to_nat (GetTypedIndex handle typeValue))) as [p Hp];
      [by apply in_range_lt |].
    rewrite Hp in Hget. simpl in Hget. by rewrite Hp, Hget.
  - by rewrite (Get_not_in_range handle s Hout) in Hget.
Qed.

Lemma Get_Free_null handle s : Get handle (Free handle s) = None.
Proof.
  destruct (decide (in_range handle s)) as [Hin | Hout].
  - rewrite Get_in_range by (by apply in_range_Free).
    rewrite (Free_in_range handle s Hin). simpl.
    rewrite list_lookup_insert_eq; [done | by apply in_range_lt].
  - apply Get_not_in_range. by rewrite in_range_Free.
Qed.

Lemma Free_Get_None handle s : Get handle s = None → Free handle s = s.
Proof.
  intros Hget. destruct (decide (in_range handle s)) as [Hin | Hout].
  - rewrite (Free_in_range handle s Hin).
    rewrite (Get_in_range handle s Hin) in Hget.
    destruct (lookup_lt_is_Some_2 (m_structures s)
                (Z.to_nat (GetTypedIndex handle typeValue))) as [p Hp];
      [by apply in_range_lt |].
    rewrite Hp in Hget. simpl in Hget. subst p.
    rewrite list_insert_id by done. by destruct s.
  - by apply Free_not_in_range.
Qed.

(** X1: when a handle passes the two guards of [Get] and [Free], the slot
    they index exists, also when the cast of the size to [int] wraps:
    [Get] returns the content of that slot and [Free] makes exactly that
    slot null. *)
Theorem guarded_access_in_bounds (handle : THandle) s :
  in_range handle s →
  ∃ p, m_structures s !! Z.to_nat (GetTypedIndex handle typeValue) = Some p
     ∧ Get handle s = p
     ∧ m_structures (Free handle s)
       = <[Z.to_nat (GetTypedIndex handle typeValue) := None]> (m_structures s)
     ∧ m_structures (Free handle s)
         !! Z.to_nat (GetTypedIndex handle typeValue) = Some None.
Proof.
  intros Hin.
  destruct (lookup_lt_is_Some_2 (m_structures s)
              (Z.to_nat (GetTypedIndex handle typeValue))) as [p Hp];
    [by apply in_range_lt |].
  exists p. rewrite (Get_in_range handle s Hin), Hp.
  rewrite (Free_in_range handle s Hin). simpl.
  split_and!; [done | done | done |].
  apply list_lookup_insert_eq. by apply in_range_lt.
Qed.

(** X2: [Free] of a handle that [Get] does not resolve changes nothing:
    this covers a wrong type, an index out of range, and a slot that is
    already empty. *)
Theorem Free_unresolved_is_noop (handle : THandle) s :
  Get handle s = None → Free handle s = s.
Proof. apply Free_Get_None. Qed.

(** X3: right after [Free] of a handle, [Get] of the same handle gives
    null, for every handle and every state. *)
Theorem Get_after_Free_is_null (handle : THandle) s :
  Get handle (Free handle s) = None.
Proof. apply Get_Free_null. Qed.

(** X4: freeing a handle twice is the same as freeing it once, and two
    [Free] calls give the same state in either order. *)
Theorem Free_idempotent_and_commutes (h1 h2 : THandle) s :
  Free h1 (Free h1 s) = Free h1 s
  ∧ Free h1 (Free h2 s) = Free h2 (Free h1 s).
Proof.
  split; [apply Free_Get_None, Get_Free_null |].
  destruct (decide (in_range h1 s)) as [Hin1 | Hout1];
    destruct (decide (in_range h2 s)) as [Hin2 | Hout2].
  - rewrite (Free_in_range h1 (Free h2 s)) by (by apply in_range_Free).
    rewrite (Free_in_range h2 (Free h1 s)) by (by apply in_range_Free).
    rewrite (Free_in_range h1 s Hin1), (Free_in_range h2 s Hin2). simpl.
    f_equal.
    destruct (decide (Z.to_nat (GetTypedIndex h1 typeValue)
                      = Z.to_nat (GetTypedIndex h2 typeValue))) as [-> | Hne];
      [done | by apply list_insert_insert_ne].
  - rewrite (Free_not_in_range h2 s Hout2).
    rewrite (Free_not_in_range h2 (Free h1 s)); [done |].
    by rewrite in_range_Free.
  - rewrite (Free_not_in_range h1 s Hout1).
    rewrite (Free_not_in_range h1 (Free h2 s)); [done |].
    by rewrite in_range_Free.
  - rewrite (Free_not_in_range h2 s Hout2), (Free_not_in_range h1 s Hout1).
    by rewrite (Free_not_in_range h2 s Hout2).
Qed.

(** X5: [Free] of one handle does not change what [Get] returns for a
    handle of another typed index. *)
Theorem Get_after_Free_of_other (h h' : THandle) s :
  GetTypedIndex h typeValue ≠ GetTypedIndex h' typeValue →
  Get h (Free h' s) = Get h s.
Proof.
  intros Hne. destruct (decide (in_range h s)) as [Hin | Hout].
  - rewrite !Get_in_range by (by try apply in_range_Free).
    destruct (decide (in_range h' s)) as [Hin' | Hout'].
    + rewrite (Free_in_range h' s Hin'). simpl.
      rewrite list_lookup_insert_ne; [done |].
      destruct Hin as [? _], Hin' as [? _]. lia.
    + by rewrite (Free_not_in_range h' s Hout').
  - rewrite !Get_not_in_range; [done | done |]. by rewrite in_range_Free.
Qed.

(** ** Counting the live slots *)

Lemma GetAll_loop_length {T : Type} (conv : THandle → T) i rest handles :
  length (GetAll_loop conv i rest handles)
  = (length handles + length (filter is_Some rest))%nat.
Proof.
  revert i handles. induction rest as [| [x |] rest IH]; intros i handles.
  - simpl. lia.
  - cbn [GetAll_loop]. rewrite IH, filter_cons, decide_True by (by eexists).
    rewrite length_app. simpl. lia.
  - cbn [GetAll_loop]. rewrite IH, filter_cons, decide_False; [done |].
    by intros [? ?].
Qed.

Lemma GetAll_length {T : Type} (conv : THandle → T) handles s :
  length (GetAll conv handles s)
  = (length handles + length (filter is_Some (m_structures s)))%nat.
Proof. apply GetAll_loop_length. Qed.

Lemma filter_live_insert (m : list (option nat)) i p q :
  m !! i = Some p →
  (length (filter is_Some (<[i := q]> m))
     + length (filter is_Some [p])
   = length (filter is_Some m) + length (filter is_Some [q]))%nat.
Proof.
  intros Hp. rewrite insert_take_drop by (by eapply lookup_lt_Some).
  rewrite <- (take_drop_middle m i p Hp) at 3.
  rewrite !filter_app, !length_app, !filter_cons.
  repeat case_decide; simpl; lia.
Qed.

Lemma live_count_fill (m : list (option nat)) i x :
  m !! i = Some None →
  length (filter is_Some (<[i := Some x]> m)) = S (length (filter is_Some m)).
Proof.
  intros Hi. pose proof (filter_live_insert m i None (Some x) Hi) as Hcount.
  simpl in Hcount. lia.
Qed.

Lemma live_count_reset (m : list (option nat)) i x :
  m !! i = Some (Some x) →
  S (length (filter is_Some (<[i := None]> m))) = length (filter is_Some m).
Proof.
  intros Hi. pose proof (filter_live_insert m i (Some x) None Hi) as Hcount.
  simpl in Hcount. lia.
Qed.

(** X6: the number of handles [GetAll] adds is the number of non-null
    slots, so it is at most the length of the vector.  A successful
    allocation that installs a non-null pointer raises it by one, [Free] of
    a handle that [Get] resolves lowers it by one, and, [kIndexMax] being
    not negative, an allocation without room leaves it as it is. *)
Theorem GetAll_count_steps :
  (∀ (T : Type) (conv : THandle → T) handles s,
     length (GetAll conv handles s)
     = (length handles + length (filter is_Some (m_structures s)))%nat)
  ∧ (∀ (T : Type) (conv : THandle → T) s,
       length (GetAll conv [] s) = length (filter is_Some (m_structures s))
       ∧ (length (GetAll conv [] s) ≤ length (m_structures s))%nat)
  ∧ (∀ r s i,
       picks s i → is_Some (installed r s) →
       length (GetAll id [] (allocate r s).2) = S (length (GetAll id [] s)))
  ∧ (∀ handle s x,
       Get handle s = Some x →
       S (length (GetAll id [] (Free handle s))) = length (GetAll id [] s))
  ∧ (∀ r s,
       0 ≤ kIndexMax → ¬ has_room s →
       length (GetAll id [] (allocate r s).2) = length (GetAll id [] s)).
Proof.
  split_and!.
  - intros T conv handles s. apply GetAll_length.
  - intros T conv s. rewrite GetAll_length. simpl.
    split; [done | apply length_filter].
  - intros r s i Hi [x Hx]. rewrite !GetAll_length. simpl.
    destruct Hi as [Hi | (Hall & -> & Hlen)].
    + rewrite (allocate_lowest_empty r s i Hi). simpl.
      destruct Hi as [Hnull _]. rewrite Hx. by apply live_count_fill.
    + rewrite (allocate_append r s Hall Hlen). simpl.
      rewrite Hx, filter_app, length_app. simpl. lia.
  - intros handle s x [Hin Hslot]%Get_Some_slot. rewrite !GetAll_length.
    rewrite (Free_in_range handle s Hin). simpl.
    by eapply live_count_reset.
  - intros r s _ Hno. by rewrite (allocate_no_room r s Hno).
Qed.

(** X7: an allocation never writes a slot that holds a resource: every
    non-null slot keeps its pointer, whichever overload is called and
    whether or not the call succeeds, and the objects already in the store
    stay where they are. *)
Theorem Allocate_keeps_live_slots r s j x :
  m_structures s !! j = Some (Some x) →
  m_structures (allocate r s).2 !! j = Some (Some x)
  ∧ ∀ l o, objects s !! l = Some o → objects (allocate r s).2 !! l = Some o.
Proof.
  intros Hj. split.
  - rewrite allocate_other_slot; [done |].
    intros [[Hnull _] | (_ & -> & _)].
    + rewrite Hnull in Hj. discriminate.
    + apply lookup_lt_Some in Hj. lia.
  - intros l o Hl. eapply prefix_lookup_Some; [done |].
    apply allocate_objects_prefix.
Qed.

(** X8: in a table without empty slots, [Free] of a handle that [Get]
    resolves followed by an allocation replaces the resource in place: the
    allocation takes the freed slot, the vector keeps its length, and the
    old handle now resolves to the pointer just installed. *)
Theorem Free_then_Allocate_replaces (handle : THandle) r s x :
  all_live (m_structures s) → Get handle s = Some x →
  allocate r (Free handle s)
  = (MakeHandle (Z.to_nat (GetTypedIndex handle typeValue)),
     {| m_structures :=
          <[Z.to_nat (GetTypedIndex handle typeValue) := installed r s]>
            (m_structures s);
        objects := objects_after r s |})
  ∧ Get handle (allocate r (Free handle s)).2 = installed r s.
Proof.
  intros Hall [Hin Hslot]%Get_Some_slot.
  set (i := Z.to_nat (GetTypedIndex handle typeValue)) in *.
  pose proof (in_range_lt handle s Hin) as Hlt. fold i in Hlt.
  assert (lowest_empty (m_structures (Free handle s)) i) as Hlow.
  { rewrite (Free_in_range handle s Hin). simpl. fold i. split.
    - by apply list_lookup_insert_eq.
    - intros j Hj. rewrite list_lookup_insert_ne by lia.
      by apply all_live_lookup. }
  assert (allocate r (Free handle s)
          = (MakeHandle i,
             {| m_structures := <[i := installed r s]> (m_structures s);
                objects := objects_after r s |})) as Halloc.
  { rewrite (allocate_lowest_empty r _ i Hlow).
    rewrite (Free_in_range handle s Hin). simpl. fold i.
    rewrite list_insert_insert_eq. by destruct r. }
  split; [done |]. rewrite Halloc. simpl.
  rewrite Get_in_range.
  - simpl. fold i. by rewrite list_lookup_insert_eq.
  - unfold in_range in *. simpl. by rewrite length_insert.
Qed.

(** ** Resources constructed by the table *)

(** The store has grown from [base] objects; every non-null slot names an
    object added since, and no two slots name the same object. *)
Definition store_ok (base : nat) (s : state) : Prop :=
  (base ≤ length (objects s))%nat
  ∧ (∀ i l, m_structures s !! i = Some (Some l) →
            (base ≤ l < length (objects s))%nat)
  ∧ (∀ i j l,
       m_structures s !! i = Some (Some l) →
       m_structures s !! j = Some (Some l) → i = j).

(** The call does not hand a pointer of the caller to the table. *)
Definition constructs (c : call) : Prop :=
  match c with
  | CallAllocate (Share _) => False
  | _ => True
  end.

Lemma allocate_slot_cases r s j :
  m_structures (allocate r s).2 !! j = m_structures s !! j
  ∨ picks s j
    ∧ m_structures (allocate r s).2 !! j = Some (installed r s)
    ∧ objects (allocate r s).2 = objects_after r s.
Proof.
  assert (∀ i, picks s i →
    m_structures (allocate r s).2 !! j = m_structures s !! j
    ∨ picks s j
      ∧ m_structures (allocate r s).2 !! j = Some (installed r s)
      ∧ objects (allocate r s).2 = objects_after r s) as Hpicked.
  { intros i Hi. destruct (decide (j = i)) as [-> | Hne].
    - right. by destruct (allocate_picks r s i Hi) as (_ & ? & ?).
    - left. apply allocate_other_slot. intros Hj.
      by destruct Hne; eapply picks_unique. }
  destruct (all_live_or_lowest_empty (m_structures s)) as [Hall | [i Hi]].
  - destruct (decide (Z.of_nat (length (m_structures s)) < kIndexMax)).
    + apply (Hpicked (length (m_structures s))). by right.
    + left. rewrite allocate_exhausted; [done | done | lia].
  - apply (Hpicked i). by left.
Qed.

Lemma allocate_store_ok base a s :
  store_ok base s → store_ok base (allocate (Construct a) s).2.
Proof.
  intros (Hbase & Hin & Hinj).
  pose proof (prefix_length _ _ (allocate_objects_prefix (Construct a) s))
    as Hgrow.
  assert (∀ i l, m_structures (allocate (Construct a) s).2 !! i = Some (Some l) →
    m_structures s !! i = Some (Some l)
    ∨ l = length (objects s)
      ∧ (length (objects s) < length (objects (allocate (Construct a) s).2))%nat
      ∧ picks s i) as Hcases.
  { intros i l Hi.
    destruct (allocate_slot_cases (Construct a) s i) as [Heq | (Hp & Heq & Hobjs)].
    - left. by rewrite <- Heq.
    - rewrite Heq in Hi. simpl in Hi. simplify_eq.
      right. split_and!; [done | | done].
      rewrite Hobjs. simpl. rewrite length_app. simpl. lia. }
  split_and!.
  - lia.
  - intros i l Hi. destruct (Hcases i l Hi) as [Hold | (-> & Hlt & _)]; [| lia].
    specialize (Hin i l Hold). lia.
  - intros i j l Hi Hj.
    destruct (Hcases i l Hi) as [Hi' | (-> & _ & Hpi)];
      destruct (Hcases j _ Hj) as [Hj' | (Hl & _ & Hpj)].
    + by eapply Hinj.
    + subst l. specialize (Hin i _ Hi'). lia.
    + specialize (Hin j _ Hj'). lia.
    + by eapply picks_unique.
Qed.

Lemma Free_store_ok base handle s :
  store_ok base s → store_ok base (Free handle s).
Proof.
  intros (Hbase & Hin & Hinj).
  assert (∀ i l, m_structures (Free handle s) !! i = Some (Some l) →
                 m_structures s !! i = Some (Some l)) as Hold.
  { intros i l Hi. destruct (Free_slot handle s i) as [Heq | Heq].
    - by rewrite <- Heq.
    - rewrite Heq in Hi. discriminate. }
  split_and!.
  - by rewrite Free_objects.
  - intros i l Hi. rewrite Free_objects. eauto.
  - intros i j l Hi Hj. eauto.
Qed.

Lemma exec_store_ok base c s :
  constructs c → store_ok base s → store_ok base (exec c s).2.
Proof.
  destruct c as [[a | p] | h | h | hs]; intros Hc Hok; try done.
  - rewrite exec_allocate_state. by apply allocate_store_ok.
  - by apply Free_store_ok.
Qed.

Lemma run_store_ok base cs s :
  Forall constructs cs → store_ok base s → store_ok base (run cs s).2.
Proof.
  revert s. induction cs as [| c cs IH]; intros s Hcs Hok; [done |].
  apply Forall_cons in Hcs as [Hc Hcs]. rewrite run_cons_state.
  by apply IH, exec_store_ok.
Qed.

(** X9: when every resource of a table was constructed by the table itself
    (no call of the pointer overload), handles never alias: after any such
    calls on a new table, two handles that [Get] resolves to the same
    pointer have the same typed index, and every pointer [Get] returns
    names an object the table created: it is in the store, behind the
    objects that were there when the table was new, and those are still in
    place. *)
Theorem constructed_resources_never_alias cs objs (h1 h2 : THandle) l :
  Forall constructs cs →
  Get h1 (run cs (empty_table objs)).2 = Some l →
  Get h2 (run cs (empty_table objs)).2 = Some l →
  GetTypedIndex h1 typeValue = GetTypedIndex h2 typeValue
  ∧ (length objs ≤ l < length (objects (run cs (empty_table objs)).2))%nat
  ∧ is_Some (objects (run cs (empty_table objs)).2 !! l)
  ∧ objs `prefix_of` objects (run cs (empty_table objs)).2.
Proof.
  intros Hcs [Hin1 Hs1]%Get_Some_slot [Hin2 Hs2]%Get_Some_slot.
  destruct (run_store_ok (length objs) cs (empty_table objs) Hcs)
    as (_ & Hin & Hinj).
  { split_and!; [done | |]; intros i; intros; simpl in *; done. }
  split_and!.
  - pose proof (Hinj _ _ _ Hs1 Hs2). destruct Hin1 as [? _], Hin2 as [? _]. lia.
  - by destruct (Hin _ _ Hs1).
  - by destruct (Hin _ _ Hs1).
  - apply lookup_lt_is_Some_2. destruct (Hin _ _ Hs1). lia.
  - apply (run_objects_prefix cs (empty_table objs)).
Qed.

(** X10: on a table that started empty, after any calls, the vector has at
    most [kIndexMax] slots, and an allocation that has room returns the
    handle made from an index that is below [kIndexMax] and at most the
    current length: the index [kIndexMax] itself is never handed out. *)
Theorem issued_index_below_kIndexMax cs objs r :
  0 ≤ kIndexMax →
  Z.of_nat (length (m_structures (run cs (empty_table objs)).2)) ≤ kIndexMax
  ∧ (has_room (run cs (empty_table objs)).2 →
     ∃ i, (allocate r (run cs (empty_table objs)).2).1 = MakeHandle i
        ∧ Z.of_nat i < kIndexMax
        ∧ (i ≤ length (m_structures (run cs (empty_table objs)).2))%nat).
Proof.
  intros Hmax.
  pose proof (run_empty_table_ok cs objs Hmax) as Hok. unfold table_ok in Hok.
  split; [done |]. intros [i Hi]%has_room_picks. exists i.
  destruct (allocate_picks r _ i Hi) as (-> & _). split; [done |].
  destruct Hi as [Hi%lowest_empty_lt | (_ & -> & Hlt)]; lia.
Qed.

(** ** Properties that rely on the handle contract *)

Context `{!HandleContract typeValue}.

Lemma MakeHandle_index i :
  Z.of_nat i ≤ kIndexMax → GetTypedIndex (MakeHandle i) typeValue = Z.of_nat i.
Proof.
  intros Hi. unfold MakeHandle. pose proof kIndexMax_int.
  rewrite size_to_int_small by lia. apply typed_index_make. lia.
Qed.

Lemma picks_index_bound s i : table_ok s → picks s i → Z.of_nat i < kIndexMax.
Proof.
  unfold table_ok. intros Hok [Hi%lowest_empty_lt | (_ & _ & Hlt)]; lia.
Qed.

Lemma table_ok_size_to_int s :
  table_ok s →
  size_to_int (length (m_structures s)) = Z.of_nat (length (m_structures s)).
Proof.
  unfold table_ok. intros Hok. pose proof kIndexMax_int.
  apply size_to_int_small. lia.
Qed.

(** On a table within its bounds [Get] reads the slot the handle decodes
    to, and gives null when there is no such slot. *)
Lemma Get_slot handle s i :
  table_ok s → GetTypedIndex handle typeValue = Z.of_nat i →
  Get handle s = default None (m_structures s !! i).
Proof.
  intros Hok Hidx. unfold Get. rewrite Hidx, table_ok_size_to_int by done.
  destruct (Z.ltb_spec (Z.of_nat i) 0); [lia |].
  destruct (Z.geb_spec (Z.of_nat i) (Z.of_nat (length (m_structures s)))).
  - rewrite lookup_ge_None_2; [done | lia].
  - rewrite Nat2Z.id. by destruct (m_structures s !! i).
Qed.

Lemma Free_slot_reset handle s i :
  table_ok s → GetTypedIndex handle typeValue = Z.of_nat i →
  m_structures (Free handle s) = <[i := None]> (m_structures s).
Proof.
  intros Hok Hidx. unfold Free. rewrite Hidx, table_ok_size_to_int by done.
  destruct (Z.ltb_spec (Z.of_nat i) 0); [lia |].
  destruct (Z.geb_spec (Z.of_nat i) (Z.of_nat (length (m_structures s)))).
  - rewrite list_insert_ge; [done | lia].
  - simpl. by rewrite Nat2Z.id.
Qed.

(** A successful allocation returns a handle that decodes to its slot. *)
Lemma allocate_index r s i :
  table_ok s → picks s i →
  GetTypedIndex (allocate r s).1 typeValue = Z.of_nat i.
Proof.
  intros Hok Hi. destruct (allocate_picks r s i Hi) as (-> & _).
  apply MakeHandle_index. pose proof (picks_index_bound s i Hok Hi). lia.
Qed.

(** Below the slot an allocation takes, no slot is empty. *)
Lemma picks_below s i j :
  picks s i → (j < i)%nat → m_structures s !! j ≠ Some None.
Proof.
  intros [[_ Hlow] | (Hall & _ & _)] Hj; [by apply Hlow |].
  by apply all_live_lookup.
Qed.

(** After an allocation at slot [i], further calls and a [Free] of the
    returned handle, slot [i] stays empty until an allocation takes it. *)
Lemma freed_slot_stays_empty r s i cs1 cs2 :
  table_ok s → picks s i →
  not_reused i cs2 (Free (allocate r s).1 (run cs1 (allocate r s).2).2) →
  m_structures
    (run cs2 (Free (allocate r s).1 (run cs1 (allocate r s).2).2)).2 !! i
  = Some None.
Proof.
  intros Hok Hi Hcs2.
  pose proof (allocate_index r s i Hok Hi) as Hidx.
  destruct (allocate_picks r s i Hi) as (_ & Hslot & _).
  set (h := (allocate r s).1) in *. set (s1 := (allocate r s).2) in *.
  assert (table_ok (run cs1 s1).2) as Hok1
    by apply run_table_ok, allocate_table_ok, Hok.
  assert (i < length (m_structures (run cs1 s1).2))%nat as Hlt.
  { eapply Nat.lt_le_trans; [by eapply lookup_lt_Some | apply run_length]. }
  set (s2 := Free h (run cs1 s1).2) in *.
  assert (m_structures s2 !! i = Some None) as Hfreed.
  { unfold s2. rewrite (Free_slot_reset h _ i Hok1 Hidx).
    by apply list_lookup_insert_eq. }
  pose proof (run_not_reused i cs2 s2 Hcs2) as Hempty.
  rewrite Hfreed in Hempty. specialize (Hempty eq_refl).
  assert (i < length (m_structures (run cs2 s2).2))%nat as Hlt2.
  { eapply Nat.lt_le_trans; [| apply run_length].
    unfold s2. by rewrite Free_length. }
  apply lookup_lt_is_Some in Hlt2. destruct Hlt2 as [p Hp].
  rewrite Hp in Hempty. simpl in Hempty. by rewrite Hp, Hempty.
Qed.

(** C3: an allocation fills the lowest empty slot; it adds a slot at the end
    when every slot is live and the vector is below [kIndexMax], and the
    vector grows in no other case.  When an allocation has returned a handle
    of index [i] and that handle has been freed, an allocation made while
    slot [i] has not been taken again and no lower slot is empty returns a
    handle of index [i]. *)
Theorem Allocate_first_fit :
  (∀ r s i,
     lowest_empty (m_structures s) i →
     allocate r s =
       (MakeHandle i,
        {| m_structures := <[i := installed r s]> (m_structures s);
           objects := objects_after r s |}))
  ∧ (∀ r s,
       all_live (m_structures s) →
       Z.of_nat (length (m_structures s)) < kIndexMax →
       allocate r s =
         (MakeHandle (length (m_structures s)),
          {| m_structures := m_structures s ++ [installed r s];
             objects := objects_after r s |}))
  ∧ (∀ r s,
       length (m_structures (allocate r s).2) ≠ length (m_structures s) →
       all_live (m_structures s))
  ∧ (∀ r r' s i cs1 cs2,
       table_ok s → picks s i →
       not_reused i cs2 (Free (allocate r s).1 (run cs1 (allocate r s).2).2) →
       (∀ j, (j < i)%nat →
          m_structures
            (run cs2 (Free (allocate r s).1 (run cs1 (allocate r s).2).2)).2
            !! j ≠ Some None) →
       GetTypedIndex (allocate r s).1 typeValue = Z.of_nat i
       ∧ GetTypedIndex
           (allocate r'
              (run cs2 (Free (allocate r s).1 (run cs1 (allocate r s).2).2)).2).1
           typeValue = Z.of_nat i).
Proof.
  split_and!.
  - apply allocate_lowest_empty.
  - apply allocate_append.
  - apply allocate_grows_only_when_live.
  - intros r r' s i cs1 cs2 Hok Hi Hcs2 Hlow.
    split; [by apply allocate_index |].
    pose proof (freed_slot_stays_empty r s i cs1 cs2 Hok Hi Hcs2) as Hempty.
    apply allocate_index; [| by left].
    apply run_table_ok, Free_table_ok, run_table_ok, allocate_table_ok, Hok.
Qed.

(** C10: given the null pointer and room for an allocation, the pointer
    overload returns the handle of the slot it picked and that slot is
    null afterwards: [Get] of the returned handle gives null, the slot is
    the lowest empty one, and the next allocation, of either overload,
    returns the same handle again. *)
Theorem Allocate_shared_null s :
  table_ok s → has_room s →
  ∃ i, picks s i
    ∧ (Allocate_shared None s).1 = MakeHandle i
    ∧ GetTypedIndex (Allocate_shared None s).1 typeValue = Z.of_nat i
    ∧ m_structures (Allocate_shared None s).2 !! i = Some None
    ∧ Get (Allocate_shared None s).1 (Allocate_shared None s).2 = None
    ∧ lowest_empty (m_structures (Allocate_shared None s).2) i
    ∧ ∀ r, (allocate r (Allocate_shared None s).2).1
           = (Allocate_shared None s).1.
Proof.
  intros Hok [i Hi]%has_room_picks. exists i.
  change (Allocate_shared None s) with (allocate (Share None) s).
  pose proof (allocate_index (Share None) s i Hok Hi) as Hidx.
  pose proof (allocate_table_ok (Share None) s Hok) as Hok1.
  destruct (allocate_picks (Share None) s i Hi) as (Hh & Hslot & _).
  simpl installed in Hslot.
  assert (lowest_empty (m_structures (allocate (Share None) s).2) i) as Hlow.
  { split; [done |]. intros j Hj. rewrite allocate_other_slot.
    - by eapply picks_below.
    - intros Hpj. pose proof (picks_unique s i j Hi Hpj). lia. }
  split_and!; try done.
  - by rewrite (Get_slot _ _ i Hok1 Hidx), Hslot.
  - intros r. by rewrite (allocate_lowest_empty r _ i Hlow).
Qed.

(** C4: let an allocation succeed at slot [i] and return handle [h].  [h]
    decodes to [i].  After any calls that neither free a handle of index [i]
    nor allocate into slot [i], [Get h] returns the very pointer the
    allocation installed; for the constructing overload that pointer names
    the object built from the arguments, which is still in the store.  Once
    [h] has been freed, [Get h] returns null for as long as no allocation
    takes slot [i]. *)
Theorem Get_after_Allocate r s i :
  table_ok s → picks s i →
  GetTypedIndex (allocate r s).1 typeValue = Z.of_nat i
  ∧ (∀ cs,
       untouched i cs (allocate r s).2 →
       Get (allocate r s).1 (run cs (allocate r s).2).2 = installed r s)
  ∧ (∀ a cs,
       r = Construct a →
       installed r s = Some (length (objects s))
       ∧ objects (run cs (allocate r s).2).2 !! length (objects s)
         = Some (construct a))
  ∧ (∀ cs1 cs2,
       not_reused i cs2 (Free (allocate r s).1 (run cs1 (allocate r s).2).2) →
       Get (allocate r s).1
         (run cs2 (Free (allocate r s).1 (run cs1 (allocate r s).2).2)).2
       = None).
Proof.
  intros Hok Hi.
  pose proof (allocate_index r s i Hok Hi) as Hidx.
  pose proof (allocate_table_ok r s Hok) as Hok1.
  destruct (allocate_picks r s i Hi) as (_ & Hslot & Hobjs).
  split_and!; [done | | |].
  - intros cs Hcs.
    rewrite (Get_slot _ _ i (run_table_ok cs _ Hok1) Hidx).
    by rewrite (run_untouched i cs _ Hcs), Hslot.
  - intros a cs ->. split; [done |].
    eapply prefix_lookup_Some; [| apply run_objects_prefix].
    rewrite Hobjs. simpl. by rewrite list_lookup_middle.
  - intros cs1 cs2 Hcs2.
    rewrite (Get_slot _ _ i); [| | done].
    + by rewrite (freed_slot_stays_empty r s i cs1 cs2 Hok Hi Hcs2).
    + apply run_table_ok, Free_table_ok, run_table_ok, Hok1.
Qed.

(** ** Runs of allocations *)

Lemma allocate_all_cons r rs s :
  allocate_all (r :: rs) s =
    (((allocate r s).1, installed r s) :: (allocate_all rs (allocate r s).2).1,
     (allocate_all rs (allocate r s).2).2).
Proof.
  simpl. destruct (allocate r s) as [h s1]. simpl.
  by destruct (allocate_all rs s1).
Qed.

Lemma installs_resource_is_Some r s :
  installs_resource r → is_Some (installed r s).
Proof.
  destruct r as [a | [l |]]; simpl; intros Hr; [by eexists | by eexists | done].
Qed.

(** The indices handed out by a run of successful allocations that install
    resources are slots that held no resource when the run began. *)
Lemma allocate_all_indices_fresh rs s z :
  table_ok s → Forall installs_resource rs → all_succeed rs s →
  z ∈ (λ hp, GetTypedIndex hp.1 typeValue) <$> (allocate_all rs s).1 →
  ∃ i, z = Z.of_nat i ∧ ¬ is_Some (mjoin (m_structures s !! i)).
Proof.
  revert s. induction rs as [| r rs IH]; intros s Hok Hrs Hsucc Hz.
  { simpl in Hz. by apply elem_of_nil in Hz. }
  apply Forall_cons in Hrs as [Hr Hrs]. destruct Hsucc as [Hroom Hsucc].
  apply has_room_picks in Hroom as [i0 Hi0].
  rewrite allocate_all_cons in Hz. simpl in Hz.
  apply elem_of_cons in Hz as [-> | Hz].
  - exists i0. split; [by apply allocate_index |].
    destruct Hi0 as [[Hnull _] | (_ & -> & _)].
    + rewrite Hnull. simpl. by intros [? ?].
    + rewrite lookup_ge_None_2 by done. simpl. by intros [? ?].
  - destruct (IH _ (allocate_table_ok r s Hok) Hrs Hsucc Hz) as (i & -> & Hfree).
    exists i. split; [done |].
    destruct (allocate_picks r s i0 Hi0) as (_ & Hslot & _).
    rewrite <- (allocate_other_slot r s i); [done |].
    intros Hi. rewrite (picks_unique s i i0 Hi Hi0) in Hfree.
    apply Hfree. rewrite Hslot. simpl. by apply installs_resource_is_Some.
Qed.

(** C2, for allocations that install a resource: in a run of successful
    allocations with no other call in between, each one constructing its
    resource or given a pointer that is not null, the handles returned
    decode to pairwise different indices. *)
Theorem Allocate_indices_distinct rs s :
  table_ok s → Forall installs_resource rs → all_succeed rs s →
  NoDup ((λ hp, GetTypedIndex hp.1 typeValue) <$> (allocate_all rs s).1).
Proof.
  revert s. induction rs as [| r rs IH]; intros s Hok Hrs Hsucc.
  { simpl. constructor. }
  pose proof Hrs as [Hr Hrs']%Forall_cons. pose proof Hsucc as [Hroom Hsucc'].
  apply has_room_picks in Hroom as [i0 Hi0].
  rewrite allocate_all_cons. simpl. apply NoDup_cons. split.
  - intros Hin.
    destruct (allocate_all_indices_fresh rs _ _
                (allocate_table_ok r s Hok) Hrs' Hsucc' Hin) as (i & Hi & Hfree).
    rewrite (allocate_index r s i0 Hok Hi0) in Hi.
    apply Nat2Z.inj in Hi as <-.
    destruct (allocate_picks r s i0 Hi0) as (_ & Hslot & _).
    apply Hfree. rewrite Hslot. simpl. by apply installs_resource_is_Some.
  - apply IH; [by apply allocate_table_ok | done | done].
Qed.

Lemma filter_Forall_id (P : nat → Prop) `{!∀ i, Decision (P i)} l :
  Forall P l → filter P l = l.
Proof.
  induction 1 as [| i l Hi Hl IH]; [done |].
  by rewrite filter_cons, decide_True, IH.
Qed.

Lemma occupied_slots_all_live m :
  all_live m → occupied_slots m = seq 0 (length m).
Proof.
  intros Hall. apply filter_Forall_id, Forall_forall.
  intros i [_ Hi]%elem_of_seq.
  destruct (lookup_lt_is_Some_2 m i) as [p Hp]; [lia |].
  rewrite Hp. simpl. by eapply Forall_lookup_1.
Qed.

(** On a vector without empty slots, successful allocations that install
    resources add their pointers at the end, one new slot each. *)
Lemma allocate_all_from_live rs s :
  all_live (m_structures s) →
  Forall installs_resource rs → all_succeed rs s →
  (allocate_all rs s).1.*1
    = MakeHandle <$> seq (length (m_structures s)) (length rs)
  ∧ m_structures (allocate_all rs s).2
    = m_structures s ++ (allocate_all rs s).1.*2
  ∧ all_live (m_structures (allocate_all rs s).2)
  ∧ Z.of_nat (length (m_structures (allocate_all rs s).2)) ≤
      Z.max kIndexMax (Z.of_nat (length (m_structures s))).
Proof.
  revert s. induction rs as [| r rs IH]; intros s Hall Hrs Hsucc.
  { simpl. rewrite app_nil_r. split_and!; [done | done | done | lia]. }
  apply Forall_cons in Hrs as [Hr Hrs]. destruct Hsucc as [Hroom Hsucc].
  destruct Hroom as [Hno | Hlen]; [done |].
  rewrite allocate_all_cons. rewrite (allocate_append r s Hall Hlen) in *.
  cbn [fst snd] in *.
  destruct (IH {| m_structures := m_structures s ++ [installed r s];
                  objects := objects_after r s |})
    as (Hhs & Hm & Hlive & Hbound); [| done | done |].
  { cbn [m_structures]. apply Forall_app. split; [done |].
    repeat constructor. by apply installs_resource_is_Some. }
  cbn [m_structures] in *. rewrite length_app in Hhs, Hbound. cbn [length] in *.
  rewrite Nat.add_1_r in Hhs. rewrite !fmap_cons. cbn [fst snd seq length].
  split_and!; [by rewrite Hhs, fmap_cons | | done | lia].
  by rewrite Hm, <- app_assoc.
Qed.

(** C7, for allocations that install a resource.  [GetAll] adds one handle
    for each occupied slot, by rising slot index, and nothing else.  On a
    new table, after a run of [N] successful allocations and no other call,
    each one constructing its resource or given a pointer that is not null,
    [GetAll] on an empty vector gives the [N] handles the allocations
    returned, of indices [0] to [N-1] in this order, and [Get] of each of
    them returns the pointer its allocation installed. *)
Theorem GetAll_enumerates :
  (∀ (T : Type) (conv : THandle → T) handles s,
     GetAll conv handles s =
       handles ++ ((λ i, conv (MakeHandle i)) <$> occupied_slots (m_structures s))
     ∧ StronglySorted lt (occupied_slots (m_structures s))
     ∧ ∀ i, i ∈ occupied_slots (m_structures s)
            ↔ ∃ x, m_structures s !! i = Some (Some x))
  ∧ (∀ objs rs,
       Forall installs_resource rs → all_succeed rs (empty_table objs) →
       GetAll id [] (allocate_all rs (empty_table objs)).2
         = (allocate_all rs (empty_table objs)).1.*1
       ∧ length (GetAll id [] (allocate_all rs (empty_table objs)).2)
         = length rs
       ∧ (λ h, GetTypedIndex h typeValue)
           <$> GetAll id [] (allocate_all rs (empty_table objs)).2
         = Z.of_nat <$> seq 0 (length rs)
       ∧ Forall (λ hp, Get hp.1 (allocate_all rs (empty_table objs)).2 = hp.2)
           (allocate_all rs (empty_table objs)).1).
Proof.
  split.
  { intros T conv handles s. split_and!.
    - apply GetAll_spec.
    - apply occupied_slots_sorted.
    - apply elem_of_occupied_slots. }
  intros objs rs Hrs Hsucc.
  destruct (decide (rs = [])) as [-> | Hne].
  { cbn. split_and!; by try constructor. }
  destruct (allocate_all_from_live rs (empty_table objs))
    as (Hhs & Hm & Hlive & Hbound); [constructor | done | done |].
  simpl in Hhs, Hm, Hbound.
  set (log := (allocate_all rs (empty_table objs)).1) in *.
  set (s' := (allocate_all rs (empty_table objs)).2) in *.
  assert (length (m_structures s') = length rs) as Hlen.
  { rewrite Hm, length_fmap. rewrite <- (length_fmap fst log), Hhs.
    by rewrite length_fmap, length_seq. }
  assert (table_ok s') as Hok.
  { unfold table_ok. destruct rs as [| r rs]; [done |].
    destruct Hsucc as [[Hno | Hroom] _]; simpl in *; [| lia].
    destruct Hno. constructor. }
  assert (GetAll id [] s' = log.*1) as Hall.
  { rewrite GetAll_spec, occupied_slots_all_live, Hlen, Hhs by done. done. }
  split_and!.
  - done.
  - by rewrite Hall, Hhs, length_fmap, length_seq.
  - rewrite Hall, Hhs, <- list_fmap_compose.
    apply Forall_fmap_ext_1, Forall_forall.
    intros k [_ Hk]%elem_of_seq. simpl.
    apply MakeHandle_index. unfold table_ok in Hok. lia.
  - apply Forall_lookup. intros k [h p] Hk. simpl.
    assert (log.*1 !! k = Some h) as Hh by (by rewrite list_lookup_fmap, Hk).
    assert (m_structures s' !! k = Some p) as Hp
      by (by rewrite Hm, list_lookup_fmap, Hk).
    rewrite Hhs, list_lookup_fmap in Hh.
    destruct (seq 0 (length rs) !! k) as [k' |] eqn:Hseq; [| done].
    apply lookup_seq in Hseq as [-> Hlt]. simpl in Hh. simplify_eq.
    rewrite (Get_slot _ s' k Hok), Hp; [done |].
    apply MakeHandle_index. unfold table_ok in Hok. lia.
Qed.

(** ** Further properties under the handle contract *)

(** X12: an allocation, successful or not, does not disturb the handles in
    use: whatever non-null pointer [Get] returned for a handle before the
    call, it returns after it. *)
Theorem Get_stable_under_Allocate (handle : THandle) r s x :
  table_ok s → Get handle s = Some x →
  Get handle (allocate r s).2 = Some x.
Proof.
  intros Hok [Hin Hslot]%Get_Some_slot.
  pose proof (allocate_table_ok r s Hok) as Hok1.
  pose proof (allocate_length r s) as [Hgrow _].
  rewrite Get_in_range.
  - rewrite allocate_other_slot; [by rewrite Hslot |].
    intros [[Hnull _] | (_ & Hlen & _)].
    + rewrite Hnull in Hslot. discriminate.
    + apply lookup_lt_Some in Hslot. lia.
  - destruct Hin as [H0 Hlt]. split; [done |].
    rewrite table_ok_size_to_int in * by done. lia.
Qed.

(** X13: [GetAll] and [Get] agree on a table within its bounds: every
    handle [GetAll] lists is resolved by [Get] to a non-null pointer, every
    handle [Get] resolves has the handle of its index in the list, and the
    list has no duplicates. *)
Theorem GetAll_agrees_with_Get s :
  table_ok s →
  (∀ h, h ∈ GetAll id [] s → ∃ x, Get h s = Some x)
  ∧ (∀ h x, Get h s = Some x →
       MakeHandle (Z.to_nat (GetTypedIndex h typeValue)) ∈ GetAll id [] s)
  ∧ NoDup (GetAll id [] s).
Proof.
  intros Hok. rewrite GetAll_spec. simpl.
  assert (∀ i, i ∈ occupied_slots (m_structures s) → Z.of_nat i ≤ kIndexMax)
    as Hbound.
  { intros i [x Hx%lookup_lt_Some]%elem_of_occupied_slots.
    unfold table_ok in Hok. lia. }
  split_and!.
  - intros h (i & -> & Hi)%list_elem_of_fmap.
    pose proof (Hbound i Hi) as Hle.
    apply elem_of_occupied_slots in Hi as [x Hx]. exists x.
    by rewrite (Get_slot _ s i Hok (MakeHandle_index i Hle)), Hx.
  - intros h x [Hin Hslot]%Get_Some_slot.
    apply list_elem_of_fmap_2, elem_of_occupied_slots. by exists x.
  - apply NoDup_fmap_2_strong.
    + intros i j Hi Hj Heq. apply Nat2Z.inj.
      rewrite <- (MakeHandle_index i (Hbound i Hi)).
      rewrite <- (MakeHandle_index j (Hbound j Hj)). by rewrite Heq.
    + apply NoDup_filter, NoDup_seq.
Qed.

End UnlimitedHandleResource.

(** ** A pointer to a resource handed to [Allocate] *)

Section PointerArgument.

Context {THandle : Type} `{Handle THandle} {TStruct : Type}.
(** [TStruct] built from a pointer to a [TStruct]. *)
Context (construct : shared_ptr TStruct → TStruct) (typeValue : Z).

(** C8: the overload that installs a given pointer is declared for a pointer
    to [THandle], not to the resource type, so a pointer to a resource
    handed to [Allocate] is taken by the constructing overload as its
    argument pack.  With room at slot [i], that call returns the handle of
    slot [i], constructs a new resource from the pointer and installs a
    pointer to the new object: the slot does not hold the pointer that was
    handed in, be it null or the name of an object already in the store. *)
Theorem Allocate_given_pointer_constructs
    (structure : shared_ptr TStruct) (s : @state TStruct) (i : nat) :
  picks s i →
  (∀ l, structure = Some l → (l < length (objects s))%nat) →
  (Allocate construct typeValue structure s).1 = MakeHandle typeValue i
  ∧ m_structures (Allocate construct typeValue structure s).2 !! i
    = Some (Some (length (objects s)))
  ∧ m_structures (Allocate construct typeValue structure s).2 !! i
    ≠ Some structure
  ∧ objects (Allocate construct typeValue structure s).2
    = objects s ++ [construct structure].
Proof.
  intros Hi Hold.
  destruct (allocate_picks construct typeValue (Construct structure) s i Hi)
    as (Hh & Hslot & Hobjs).
  simpl in Hh, Hslot, Hobjs.
  split_and!; [done | done | | done].
  rewrite Hslot. intros [= Heq]. specialize (Hold _ (eq_sym Heq)). lia.
Qed.

End PointerArgument.

(** ** The sample handle type meets the contract *)

Lemma sample_typed_index_make (i : Z) :
  0 ≤ i ≤ 65535 →
  SampleHandle.typed_index (SampleHandle.make i SampleHandle.kSource)
    SampleHandle.kSource = i.
Proof.
  intros Hi.
  unfold SampleHandle.typed_index, SampleHandle.make, SampleHandle.GetType,
    SampleHandle.GetIndex, SampleHandle.kSource.
  destruct (Z.ltb_spec i 0); [lia |].
  change (Z.shiftl (Z.land 65 127) 24) with 1090519040.
  assert (Z.land i 65535 = i) as ->.
  { change 65535 with (Z.ones 16). rewrite Z.land_ones by lia.
    apply Z.mod_small. lia. }
  assert (Z.shiftr i 24 = 0) as Hhigh.
  { rewrite Z.shiftr_div_pow2 by lia. apply Z.div_small. lia. }
  rewrite Z.shiftr_lor, Hhigh. change (Z.shiftr 1090519040 24) with 65.
  rewrite Z.lor_0_r. change (Z.land 65 255 =? 65) with true. cbv iota.
  rewrite Z.land_lor_distr_l. change (Z.land 1090519040 65535) with 0.
  rewrite Z.lor_0_l.
  change 65535 with (Z.ones 16). rewrite Z.land_ones by lia.
  apply Z.mod_small. lia.
Qed.

Lemma sample_contract :
  HandleContract (H := SampleHandle.sample_handle) SampleHandle.kSource.
Proof.
  split.
  - by vm_compute.
  - apply sample_typed_index_make.
Qed.

(** ** The table run on the sample handle type

    Resources are numbers here, built from a number by [S]; the type value
    is [SampleHandle.kSource], so the handle of slot [i] is
    [1090519040 + i]. *)

Section Samples.

Import SampleHandle.

Local Abbreviation full :=
  {| m_structures := replicate (Z.to_nat 65535) (Some 0%nat);
     objects := [1%nat] |}.

(** The scenario of the specification: three allocations, the second one
    freed, the enumeration skips it, the next allocation takes its slot,
    and the old handle then reaches the new resource. *)
Example allocate_free_reuse_scenario :
  run S kSource
    [CallAllocate (Construct 1%nat); CallAllocate (Construct 2%nat);
     CallAllocate (Construct 3%nat); CallFree 1090519041; CallGetAll [];
     CallAllocate (Construct 4%nat); CallGet 1090519041]
    (empty_table [])
  = ([ReplyHandle 1090519040; ReplyHandle 1090519041; ReplyHandle 1090519042;
      ReplyVoid; ReplyHandles [1090519040; 1090519042];
      ReplyHandle 1090519041; ReplyPtr (Some 3%nat)],
     {| m_structures := [Some 0%nat; Some 3%nat; Some 2%nat];
        objects := [2%nat; 3%nat; 4%nat; 5%nat] |}).
Proof. reflexivity. Qed.

Lemma Allocate_at_capacity_sample :
  Allocate S kSource 5%nat full = (0, full)
  ∧ Allocate_shared kSource (Some 0%nat) full = (0, full).
Proof.
  refine (Allocate_at_capacity S kSource 5%nat (Some 0%nat) full _ _).
  - apply (bool_decide_unpack _). vm_compute. exact I.
  - vm_compute. reflexivity.
Defined.

Lemma Allocate_indices_distinct_sample :
  NoDup ((λ hp : Z * option nat, GetTypedIndex hp.1 kSource) <$>
         (allocate_all S kSource
            [Construct 1%nat; Share (Some 0%nat); Construct 2%nat]
            (empty_table [])).1).
Proof.
  apply (Allocate_indices_distinct S kSource (HandleContract0 := sample_contract)).
  - vm_compute. discriminate.
  - repeat constructor; discriminate.
  - simpl. repeat split; right; vm_compute; reflexivity.
Defined.

(** C2 as stated fails: two allocations given the null pointer both succeed
    on a new table, and both return the handle of slot 0. *)
Lemma Allocate_null_twice_same_index :
  all_succeed S kSource [Share None; Share None] (empty_table ([] : list nat))
  ∧ (λ hp : Z * option nat, GetTypedIndex hp.1 kSource) <$>
      (allocate_all S kSource [Share None; Share None]
         (empty_table ([] : list nat))).1 = [0; 0]
  ∧ ¬ NoDup ((λ hp : Z * option nat, GetTypedIndex hp.1 kSource) <$>
             (allocate_all S kSource [Share None; Share None]
                (empty_table ([] : list nat))).1).
Proof.
  split_and!.
  - simpl. split_and!; [right; vm_compute; reflexivity | | done].
    left. intros Hall. vm_compute in Hall.
    apply Forall_cons in Hall as [[x Hx] _]. discriminate.
  - reflexivity.
  - change (¬ NoDup [0; 0]). intros [Hin _]%NoDup_cons.
    apply Hin. constructor.
Qed.

Lemma Allocate_first_fit_sample :
  GetTypedIndex
    (allocate S kSource (Construct 7%nat)
       {| m_structures := [Some 0%nat; Some 1%nat];
          objects := [10%nat; 11%nat] |}).1
    kSource = 2
  ∧ GetTypedIndex
      (allocate S kSource (Share (Some 0%nat))
         (run S kSource [CallGetAll []]
            (Free kSource
               (allocate S kSource (Construct 7%nat)
                  {| m_structures := [Some 0%nat; Some 1%nat];
                     objects := [10%nat; 11%nat] |}).1
               (run S kSource [CallGet 1090519040]
                  (allocate S kSource (Construct 7%nat)
                     {| m_structures := [Some 0%nat; Some 1%nat];
                        objects := [10%nat; 11%nat] |}).2).2)).2).1
      kSource = 2.
Proof.
  destruct (Allocate_first_fit S kSource (HandleContract0 := sample_contract))
    as (_ & _ & _ & Hreuse).
  refine (Hreuse (Construct 7%nat) (Share (Some 0%nat))
            {| m_structures := [Some 0%nat; Some 1%nat];
               objects := [10%nat; 11%nat] |}
            2%nat [CallGet 1090519040] [CallGetAll []] _ _ _ _).
  - vm_compute. discriminate.
  - right. split_and!; [repeat constructor; by eexists | reflexivity |].
    vm_compute. reflexivity.
  - simpl. done.
  - intros [| [| j]] Hj; [vm_compute; discriminate | vm_compute; discriminate |].
    lia.
Defined.

Lemma Get_after_Allocate_sample :
  Get kSource
    (allocate S kSource (Construct 3%nat) (empty_table [])).1
    (run S kSource [CallAllocate (Share (Some 5%nat)); CallFree 1090519041]
       (allocate S kSource (Construct 3%nat) (empty_table [])).2).2
  = Some 0%nat.
Proof.
  destruct (Get_after_Allocate S kSource (HandleContract0 := sample_contract)
              (Construct 3%nat) (empty_table []) 0%nat)
    as (_ & Hget & _ & _).
  - vm_compute. discriminate.
  - right. split_and!; [constructor | reflexivity | vm_compute; reflexivity].
  - refine (Hget [CallAllocate (Share (Some 5%nat)); CallFree 1090519041] _).
    simpl. split_and!; [| vm_compute; discriminate | done].
    intros [[Hnull _] | (_ & Hlen & _)];
      [vm_compute in Hnull | vm_compute in Hlen]; discriminate.
Defined.

(** C4 as stated fails.  The sample handle type ignores bits 16 to 23 when
    it decodes, so [1090584576] is another handle of index 0.  After an
    allocation has returned the handle [1090519040] of slot 0, [Free] of
    that other handle empties the slot: the handle returned was not freed,
    the slot was not taken again, and [Get] gives null instead of the
    pointer installed. *)
Lemma Free_of_other_handle_of_same_index :
  (allocate S kSource (Construct 3%nat) (empty_table [])).1 = 1090519040
  ∧ installed S (Construct 3%nat) (empty_table []) = Some 0%nat
  ∧ 1090584576 ≠ 1090519040
  ∧ GetTypedIndex 1090584576 kSource = 0
  ∧ no_Free_of (Args := nat) 1090519040 [CallFree 1090584576]
  ∧ not_reused S kSource 0 [CallFree 1090584576]
      (allocate S kSource (Construct 3%nat) (empty_table [])).2
  ∧ Get kSource 1090519040
      (run S kSource [CallFree 1090584576]
         (allocate S kSource (Construct 3%nat) (empty_table [])).2).2
    = None
  ∧ Get kSource 1090519040
      (run S kSource [CallFree 1090584576]
         (allocate S kSource (Construct 3%nat) (empty_table [])).2).2
    ≠ installed S (Construct 3%nat) (empty_table []).
Proof.
  split_and!; try reflexivity; try done.
  repeat constructor. intros [= Heq].
Qed.

Lemma Allocate_given_pointer_constructs_sample :
  (Allocate (λ p : option nat, S (default 0%nat p)) kSource (Some 0%nat)
     {| m_structures := []; objects := [10%nat] |}).1
  = MakeHandle kSource 0
  ∧ m_structures
      (Allocate (λ p : option nat, S (default 0%nat p)) kSource (Some 0%nat)
         {| m_structures := []; objects := [10%nat] |}).2 !! 0%nat
    = Some (Some 1%nat)
  ∧ m_structures
      (Allocate (λ p : option nat, S (default 0%nat p)) kSource (Some 0%nat)
         {| m_structures := []; objects := [10%nat] |}).2 !! 0%nat
    ≠ Some (Some 0%nat)
  ∧ objects
      (Allocate (λ p : option nat, S (default 0%nat p)) kSource (Some 0%nat)
         {| m_structures := []; objects := [10%nat] |}).2
    = [10%nat; 1%nat].
Proof.
  refine (Allocate_given_pointer_constructs
            (λ p : option nat, S (default 0%nat p)) kSource (Some 0%nat)
            {| m_structures := []; objects := [10%nat] |} 0 _ _).
  - right. split_and!; [constructor | reflexivity | vm_compute; reflexivity].
  - intros l [= <-]. simpl. lia.
Defined.

Lemma invalid_handle_not_found_sample :
  Get kSource 0 (empty_table ([] : list nat)) = None
  ∧ Free kSource 0 (empty_table ([] : list nat)) = empty_table []
  ∧ exec S kSource (CallGet 0) (empty_table []) = (ReplyPtr None, empty_table [])
  ∧ exec S kSource (CallFree 0) (empty_table []) = (ReplyVoid, empty_table []).
Proof.
  refine (invalid_handle_not_found S kSource 0 (empty_table []) _).
  left. vm_compute. reflexivity.
Defined.

Lemma GetAll_enumerates_sample :
  GetAll kSource id []
    (allocate_all S kSource
       [Construct 1%nat; Share (Some 0%nat); Construct 2%nat]
       (empty_table [])).2
  = [1090519040; 1090519041; 1090519042].
Proof.
  destruct (GetAll_enumerates S kSource (HandleContract0 := sample_contract))
    as (_ & Hnew).
  destruct (Hnew [] [Construct 1%nat; Share (Some 0%nat); Construct 2%nat])
    as (-> & _).
  - repeat constructor; discriminate.
  - simpl. repeat split; right; vm_compute; reflexivity.
  - reflexivity.
Defined.

(** C7 as stated fails: one allocation given the null pointer succeeds on a
    new table, and [GetAll] then gives no handle at all. *)
Lemma GetAll_after_null_Allocate :
  all_succeed S kSource [Share None] (empty_table ([] : list nat))
  ∧ (allocate_all S kSource [Share None] (empty_table ([] : list nat))).1
    = [(1090519040, None)]
  ∧ GetAll kSource id []
      (allocate_all S kSource [Share None] (empty_table ([] : list nat))).2
    = []
  ∧ length
      (GetAll kSource id []
         (allocate_all S kSource [Share None] (empty_table ([] : list nat))).2)
    ≠ 1%nat.
Proof.
  split_and!; [| reflexivity | reflexivity | vm_compute; discriminate].
  simpl. split; [| done]. right. vm_compute. reflexivity.
Qed.

Lemma Allocate_shared_null_sample :
  ∃ i : nat,
    picks (empty_table ([] : list nat)) i
    ∧ (Allocate_shared kSource None (empty_table ([] : list nat))).1
      = MakeHandle kSource i
    ∧ GetTypedIndex (Allocate_shared kSource None (empty_table ([] : list nat))).1
        kSource = Z.of_nat i
    ∧ m_structures (Allocate_shared kSource None (empty_table ([] : list nat))).2
        !! i = Some None
    ∧ Get kSource (Allocate_shared kSource None (empty_table ([] : list nat))).1
        (Allocate_shared kSource None (empty_table ([] : list nat))).2 = None
    ∧ lowest_empty
        (m_structures (Allocate_shared kSource None (empty_table ([] : list nat))).2)
        i
    ∧ ∀ r : alloc_request,
        (allocate S kSource r
           (Allocate_shared kSource None (empty_table ([] : list nat))).2).1
        = (Allocate_shared kSource None (empty_table ([] : list nat))).1.
Proof.
  refine (Allocate_shared_null S kSource (HandleContract0 := sample_contract)
            (empty_table []) _ _).
  - vm_compute. discriminate.
  - right. vm_compute. reflexivity.
Defined.

(** A table with slot 1 empty, and a table with three live slots. *)
Local Abbreviation gap :=
  {| m_structures := [Some 0%nat; None; Some 2%nat];
     objects := [10%nat; 11%nat; 12%nat] |}.

Local Abbreviation three :=
  {| m_structures := [Some 0%nat; Some 1%nat; Some 2%nat];
     objects := [10%nat; 11%nat; 12%nat] |}.

Lemma guarded_access_in_bounds_sample :
  ∃ p, m_structures gap !! Z.to_nat (GetTypedIndex 1090519042 kSource) = Some p
     ∧ Get kSource 1090519042 gap = p
     ∧ m_structures (Free kSource 1090519042 gap)
       = <[Z.to_nat (GetTypedIndex 1090519042 kSource) := None]>
           (m_structures gap)
     ∧ m_structures (Free kSource 1090519042 gap)
         !! Z.to_nat (GetTypedIndex 1090519042 kSource) = Some None.
Proof.
  refine (guarded_access_in_bounds kSource 1090519042 gap _).
  split; vm_compute; [discriminate | reflexivity].
Defined.

Lemma Free_unresolved_is_noop_sample : Free kSource 1090519041 gap = gap.
Proof.
  refine (Free_unresolved_is_noop kSource 1090519041 gap _). reflexivity.
Defined.

Lemma Get_after_Free_of_other_sample :
  Get kSource 1090519040 (Free kSource 1090519042 gap)
  = Get kSource 1090519040 gap.
Proof.
  refine (Get_after_Free_of_other kSource 1090519040 1090519042 gap _).
  vm_compute. discriminate.
Defined.

Lemma Allocate_keeps_live_slots_sample :
  m_structures (allocate S kSource (Construct 7%nat) gap).2 !! 2%nat
  = Some (Some 2%nat)
  ∧ ∀ l o, objects gap !! l = Some o →
           objects (allocate S kSource (Construct 7%nat) gap).2 !! l = Some o.
Proof.
  refine (Allocate_keeps_live_slots S kSource (Construct 7%nat) gap 2 2 _).
  reflexivity.
Defined.

Lemma Free_then_Allocate_replaces_sample :
  allocate S kSource (Share (Some 9%nat)) (Free kSource 1090519041 three)
  = (MakeHandle kSource (Z.to_nat (GetTypedIndex 1090519041 kSource)),
     {| m_structures :=
          <[Z.to_nat (GetTypedIndex 1090519041 kSource)
            := installed S (Share (Some 9%nat)) three]> (m_structures three);
        objects := objects_after S (Share (Some 9%nat)) three |})
  ∧ Get kSource 1090519041
      (allocate S kSource (Share (Some 9%nat))
         (Free kSource 1090519041 three)).2
    = installed S (Share (Some 9%nat)) three.
Proof.
  refine (Free_then_Allocate_replaces S kSource 1090519041
            (Share (Some 9%nat)) three 1 _ _).
  - repeat constructor; by eexists.
  - reflexivity.
Defined.

Lemma constructed_resources_never_alias_sample :
  GetTypedIndex 1090519041 kSource = GetTypedIndex (1090519041 + 65536) kSource
  ∧ (length [10%nat; 11%nat] ≤ 3
     < length
         (objects
            (run S kSource
               [CallAllocate (Construct 1%nat); CallAllocate (Construct 2%nat);
                CallFree 1090519040%Z; CallAllocate (Construct 3%nat)]
               (empty_table [10%nat; 11%nat])).2))%nat
  ∧ is_Some
      (objects
         (run S kSource
            [CallAllocate (Construct 1%nat); CallAllocate (Construct 2%nat);
             CallFree 1090519040; CallAllocate (Construct 3%nat)]
            (empty_table [10%nat; 11%nat])).2 !! 3%nat)
  ∧ [10%nat; 11%nat] `prefix_of`
      objects
        (run S kSource
           [CallAllocate (Construct 1%nat); CallAllocate (Construct 2%nat);
            CallFree 1090519040; CallAllocate (Construct 3%nat)]
           (empty_table [10%nat; 11%nat])).2.
Proof.
  refine (constructed_resources_never_alias S kSource
            [CallAllocate (Construct 1%nat); CallAllocate (Construct 2%nat);
             CallFree 1090519040; CallAllocate (Construct 3%nat)]
            [10%nat; 11%nat] 1090519041 (1090519041 + 65536) 3 _ _ _).
  - repeat constructor.
  - reflexivity.
  - reflexivity.
Defined.

Lemma issued_index_below_kIndexMax_sample :
  Z.of_nat
    (length
       (m_structures
          (run S kSource [CallAllocate (Construct 1%nat); CallFree 1090519040]
             (empty_table [])).2)) ≤ @kIndexMax Z _
  ∧ (has_room
       (run S kSource [CallAllocate (Construct 1%nat); CallFree 1090519040]
          (empty_table [])).2 →
     ∃ i : nat,
       (allocate S kSource (Share (Some 4%nat))
          (run S kSource [CallAllocate (Construct 1%nat); CallFree 1090519040]
             (empty_table [])).2).1 = MakeHandle kSource i
       ∧ Z.of_nat i < @kIndexMax Z _
       ∧ (i ≤ length
              (m_structures
                 (run S kSource
                    [CallAllocate (Construct 1%nat); CallFree 1090519040%Z]
                    (empty_table [])).2))%nat).
Proof.
  refine (issued_index_below_kIndexMax S kSource
            [CallAllocate (Construct 1%nat); CallFree 1090519040] []
            (Share (Some 4%nat)) _).
  vm_compute. discriminate.
Defined.

Lemma Get_stable_under_Allocate_sample :
  Get kSource 1090519042 (allocate S kSource (Construct 7%nat) gap).2
  = Some 2%nat.
Proof.
  refine (Get_stable_under_Allocate S kSource (HandleContract0 := sample_contract)
            1090519042 (Construct 7%nat) gap 2 _ _).
  - vm_compute. discriminate.
  - reflexivity.
Defined.

Lemma GetAll_agrees_with_Get_sample :
  (∀ h, h ∈ GetAll kSource id [] gap → ∃ x, Get kSource h gap = Some x)
  ∧ (∀ h x, Get kSource h gap = Some x →
       MakeHandle kSource (Z.to_nat (GetTypedIndex h kSource))
         ∈ GetAll kSource id [] gap)
  ∧ NoDup (GetAll kSource id [] gap).
Proof.
  refine (GetAll_agrees_with_Get kSource (HandleContract0 := sample_contract)
            gap _).
  vm_compute. discriminate.
Defined.

End Samples.
